(** * pr-reviewer: the inference provider and the local review CLI

  A shallow embedding of the two source files of the repository:

  - the AI-SDK inference provider ([AISDKProvider.runInference]), which
    asks a model backend for a structured object and recovers from
    responses wrapped under the reserved key [$PARAMETER_NAME];
  - the command line harness [cli.ts]: [loadDotEnvIfExists],
    [resolveGitHubToken], [listPRs], [reviewPR], [parseArgs] and [main].

  JavaScript values are modelled by inductive types, strings by their
  UTF-8 encoding, the numbers that [parseInt] gives by the integers
  that are doubles (with [NaN] and the infinities), [process.env] by a
  finite map from names to strings, and the effects of the CLI (the
  environment, the two patched stream writers, the capture buffers, the
  files written, the external commands run) by explicit state passing
  in a small state-and-exception monad. *)

From Stdlib Require Import ZArith QArith Ascii String DecimalString.
From stdpp Require Import gmap strings list.

Local Open Scope Z_scope.
Set Warnings "-register-all".

(** ** JavaScript string primitives used by the sources *)

Module Js.

(** Strings. A JavaScript string is represented by its UTF-8 encoding,
    the form in which the process receives its arguments, its
    environment and the output of a command, and writes its files; a
    character of [string] is one byte. The operations below that look
    at ASCII characters only ([startsWith] on [-] and [/], [split] on
    [/], the digits) are the same on the encoding, since no byte of a
    longer sequence is an ASCII byte. *)

(** [String.prototype.startsWith]. *)
Definition startsWith (s prefix : string) : bool := String.prefix prefix s.

(** White space as [trim] and [parseInt] see it ([WhiteSpace] and
    [LineTerminator] of the language). The characters of one byte: TAB,
    LF, VT, FF, CR and SPACE. *)
Definition isWhiteSpace (c : ascii) : bool :=
  let n := nat_of_ascii c in
  ((9 <=? n)%nat && (n <=? 13)%nat) || (n =? 32)%nat.

(** The one of two bytes: U+00A0, encoded [C2 A0]. *)
Definition isWhiteSpace2 (a b : ascii) : bool :=
  (nat_of_ascii a =? 194)%nat && (nat_of_ascii b =? 160)%nat.

(** Those of three bytes: U+1680 ([E1 9A 80]), U+2000 to U+200A
    ([E2 80 80] to [E2 80 8A]), U+2028 and U+2029 ([E2 80 A8],
    [E2 80 A9]), U+202F ([E2 80 AF]), U+205F ([E2 81 9F]), U+3000
    ([E3 80 80]) and U+FEFF ([EF BB BF]). *)
Definition isWhiteSpace3 (a b c : ascii) : bool :=
  let x := nat_of_ascii a in
  let y := nat_of_ascii b in
  let z := nat_of_ascii c in
  ((x =? 225) && (y =? 154) && (z =? 128)
   || (x =? 226) && (y =? 128)
      && ((128 <=? z) && (z <=? 138) || (z =? 168) || (z =? 169) || (z =? 175))
   || (x =? 226) && (y =? 129) && (z =? 159)
   || (x =? 227) && (y =? 128) && (z =? 128)
   || (x =? 239) && (y =? 187) && (z =? 191))%nat.

Definition isEmpty (s : string) : bool :=
  match s with EmptyString => true | String _ _ => false end.

(** What follows one white-space character at the start of [s]. *)
Definition afterWhiteSpace (s : string) : option string :=
  match s with
  | EmptyString => None
  | String a s1 =>
      if isWhiteSpace a then Some s1
      else
        match s1 with
        | EmptyString => None
        | String b s2 =>
            if isWhiteSpace2 a b then Some s2
            else
              match s2 with
              | EmptyString => None
              | String c s3 => if isWhiteSpace3 a b c then Some s3 else None
              end
        end
  end.

(** [String.prototype.trimStart]. *)
Fixpoint trimStart (s : string) : string :=
  match s with
  | EmptyString => EmptyString
  | String a s1 =>
      if isWhiteSpace a then trimStart s1
      else
        match s1 with
        | EmptyString => s
        | String b s2 =>
            if isWhiteSpace2 a b then trimStart s2
            else
              match s2 with
              | EmptyString => s
              | String c s3 => if isWhiteSpace3 a b c then trimStart s3 else s
              end
        end
  end.

(** [String.prototype.trimEnd]: the string is cut where what remains is
    white space only. *)
Fixpoint trimEnd (s : string) : string :=
  match s with
  | EmptyString => EmptyString
  | String c s' => if isEmpty (trimStart s) then EmptyString else String c (trimEnd s')
  end.

(** [String.prototype.trim]. *)
Definition trim (s : string) : string := trimEnd (trimStart s).

Definition isDigit (c : ascii) : bool :=
  let n := nat_of_ascii c in (48 <=? n)%nat && (n <=? 57)%nat.

(** [s.replace(/[^0-9]/g, '')]: every character that is not a decimal
    digit is dropped. *)
Fixpoint digitsOnly (s : string) : string :=
  match s with
  | EmptyString => EmptyString
  | String c s' => if isDigit c then String c (digitsOnly s') else digitsOnly s'
  end.

(** [s.split(sep)] for a one-character separator: never empty. *)
Fixpoint split (sep : ascii) (s : string) : list string :=
  match s with
  | EmptyString => [EmptyString]
  | String c s' =>
      if Ascii.eqb c sep then EmptyString :: split sep s'
      else match split sep s' with
           | [] => [String c EmptyString]
           | w :: ws => String c w :: ws
           end
  end.

(** [parts.join(sep)]. *)
Definition join (sep : string) (parts : list string) : string :=
  String.concat sep parts.

(** JavaScript numbers as the CLI meets them: the results of
    [parseInt], that is [NaN], an integer that is a double, or an
    infinity (a run of digits beyond the range of the doubles). *)
Inductive number := NaN | Num (z : Z) | Infinity (negative : bool).

(** Truthiness of a number: [NaN] and [0] are falsy. *)
Definition numberTruthy (n : number) : bool :=
  match n with NaN => false | Num z => negb (z =? 0) | Infinity _ => true end.

(** The double nearest to the integer [m >= 0], as an integer: 53
    significant bits are kept, and a tie goes to the even neighbour.
    From [2 ^ 1024] on the result stands for the infinity. *)
Definition roundMagnitude (m : Z) : Z :=
  let bits := Z.log2 m + 1 in
  if bits <=? 53 then m
  else
    let shift := bits - 53 in
    let q := Z.shiftr m shift in
    let r := m - Z.shiftl q shift in
    let half := Z.shiftl 1 (shift - 1) in
    Z.shiftl (if (half <? r) || ((r =? half) && Z.odd q) then q + 1 else q) shift.

(** The Number value of a mathematical integer. *)
Definition toNumber (z : Z) : number :=
  let m := roundMagnitude (Z.abs z) in
  if 2 ^ 1024 <=? m then Infinity (z <? 0) else Num (Z.sgn z * m).

(** The decimal digits of an integer. *)
Definition decimal (m : Z) : string := NilZero.string_of_int (Z.to_int m).

(** [Number::toString], radix 10, for a double [x >= 1] that is an
    integer. The digits are those of the least [k] and of the integer
    [s] of [k] digits such that [s * 10 ^ (n - k)] has [x] as its
    nearest double; among several such [s] the one nearest to [x], and
    the even one when two are equally near.

    [digitsFor x n k] is that [s] for [k] digits, where [n] is the
    number of digits of [x], with the exponent: one more than [n] when
    the digits are rounded up to the next power of ten. *)
Definition digitsFor (x n k : Z) : option (Z * Z) :=
  let unit := 10 ^ (n - k) in
  let lo := x / unit in
  let hi := lo + 1 in
  let normal (s : Z) := if s =? 10 ^ k then (10 ^ (k - 1), n + 1) else (s, n) in
  match roundMagnitude (lo * unit) =? x, roundMagnitude (hi * unit) =? x with
  | true, true =>
      let below := x - lo * unit in
      let above := hi * unit - x in
      Some (normal (if below <? above then lo
                    else if above <? below then hi
                    else if Z.even lo then lo else hi))
  | true, false => Some (normal lo)
  | false, true => Some (normal hi)
  | false, false => None
  end.

(** The digits, their number and the exponent, trying [k], [k + 1],
    ...; 17 digits tell any two doubles apart, and all the digits of an
    integer give the integer. *)
Fixpoint shortest (x n k : Z) (tries : nat) : Z * Z * Z :=
  match tries with
  | O => (x, n, n)
  | S tries' =>
      match digitsFor x n k with
      | Some (s, n') => (s, k, n')
      | None => shortest x n (k + 1) tries'
      end
  end.

Fixpoint zeros (count : nat) : string :=
  match count with O => EmptyString | S c => String "0" (zeros c) end.

(** Up to 21 digits before the point the number is printed as an
    integer, the digits followed by zeros; beyond, with an exponent. *)
Definition stringOfDouble (x : Z) : string :=
  let n := Z.of_nat (String.length (decimal x)) in
  let '(s, k, n') := shortest x n 1 (Z.to_nat (Z.min n 17)) in
  if n' <=? 21 then decimal s +:+ zeros (Z.to_nat (n' - k))
  else
    match decimal s with
    | EmptyString => EmptyString
    | String d EmptyString => String d ("e+" +:+ decimal (n' - 1))
    | String d more => String d ("." +:+ more +:+ "e+" +:+ decimal (n' - 1))
    end.

(** [String(n)] for the number nearest to the integer [z]: in full up
    to [2 ^ 53], as [18446744073709552000] for [2 ^ 64] and as [1e+21]
    for [10 ^ 21]. *)
Definition stringOfInt (z : Z) : string :=
  if z =? 0 then "0"
  else if z <? 0 then "-" +:+ stringOfDouble (roundMagnitude (- z))
  else stringOfDouble (roundMagnitude z).

Definition stringOfNumber (n : number) : string :=
  match n with
  | NaN => "NaN"
  | Num z => stringOfInt z
  | Infinity negative => if negative then "-Infinity" else "Infinity"
  end.

Definition digitValue (c : ascii) : Z := Z.of_nat (nat_of_ascii c) - 48.

(** The value of the longest prefix of decimal digits, with the number
    of digits read. *)
Fixpoint readDigits (acc : Z) (count : nat) (s : string) : Z * nat :=
  match s with
  | String c s' =>
      if isDigit c then readDigits (10 * acc + digitValue c) (S count) s'
      else (acc, count)
  | EmptyString => (acc, count)
  end.

(** [parseInt(s, 10)]: leading white space is skipped, one sign is
    accepted, then the longest run of digits is read; [NaN] when there
    is no digit, else the Number value of the integer read. *)
Definition parseInt (s : string) : number :=
  let body := trimStart s in
  let '(negative, digits) :=
    match body with
    | String "-" r => (true, r)
    | String "+" r => (false, r)
    | _ => (false, body)
    end in
  match readDigits 0 0 digits with
  | (_, O) => NaN
  | (v, S _) => toNumber (if negative then - v else v)
  end.

(** Truthiness of [string | undefined]: a non-empty string is truthy.
    [truthyString o] is the string when it is truthy. *)
Definition truthyString (o : option string) : option string :=
  match o with
  | Some s => if isEmpty s then None else Some s
  | None => None
  end.

(** [a || b] on [string | undefined]. *)
Definition orElse (a b : option string) : option string :=
  match truthyString a with Some s => Some s | None => b end.

(** A value interpolated in a template literal. *)
Definition template (o : option string) : string :=
  match o with Some s => s | None => "undefined" end.

(** [Array.prototype.slice(0, end)]: a negative [end] counts from the
    end of the array. *)
Definition slice0 {A} (l : list A) (end_ : Z) : list A :=
  let len := Z.of_nat (length l) in
  let k := if end_ <? 0 then Z.max (len + end_) 0 else Z.min end_ len in
  take (Z.to_nat k) l.

End Js.

(** ** The inference provider ([AISDKProvider]) *)

Module Inference.

(** A JavaScript value as a model backend can return it. Numbers are
    integers here: [runInference] never inspects them. An object is the
    list of its own properties. *)
Inductive JsValue :=
| JUndefined
| JNull
| JBool (b : bool)
| JNum (n : Z)
| JStr (s : string)
| JArr (items : list JsValue)
| JObj (props : list (string * JsValue)).

(** The reserved key under which some backends nest the payload. *)
Definition SENTINEL : string := "$PARAMETER_NAME".

(** Truthiness of a value, for [object && ...]. *)
Definition truthy (v : JsValue) : bool :=
  match v with
  | JUndefined | JNull => false
  | JBool b => b
  | JNum n => negb (n =? 0)
  | JStr s => negb (Js.isEmpty s)
  | JArr _ | JObj _ => true
  end.

(** [typeof v === 'object'] ([null], arrays and objects). *)
Definition typeofIsObject (v : JsValue) : bool :=
  match v with
  | JNull | JArr _ | JObj _ => true
  | _ => false
  end.

Fixpoint getProp (key : string) (props : list (string * JsValue)) : option JsValue :=
  match props with
  | [] => None
  | (k, v) :: rest => if String.eqb k key then Some v else getProp key rest
  end.

(** [key in v] for a key that no prototype defines: an array has
    index keys only. *)
Definition hasKey (key : string) (v : JsValue) : bool :=
  match v with
  | JObj props => match getProp key props with Some _ => true | None => false end
  | _ => false
  end.

(** [v[key]]: [undefined] when the property is missing. *)
Definition getKey (key : string) (v : JsValue) : JsValue :=
  match v with
  | JObj props => match getProp key props with Some x => x | None => JUndefined end
  | _ => JUndefined
  end.

(** What [schema.parse] throws: the list of issues found. *)
Record ZodIssue := { code : string; path : list string; message : string }.
Record ZodError := { issues : list ZodIssue }.

Inductive ParseResult :=
| ParseOk (output : JsValue)
| ParseThrows (err : ZodError).

(** The schema of a request, through the two operations the provider
    applies to it: [schema.parse] and [zodToJsonSchema(schema)]. *)
Record Schema := {
  parse : JsValue -> ParseResult;
  toJsonSchema : JsValue
}.

Record InferenceConfig := {
  prompt : string;
  temperature : option Q;
  system : option string;
  schema : Schema
}.

(** The outcome of the promise returned by [runInference]. *)
Inductive Thrown :=
| ZodThrown (err : ZodError)
| BackendThrown (reason : string).

Inductive Outcome :=
| Resolved (value : JsValue)
| Rejected (err : Thrown).

(** [temperature || 0]. *)
Definition temperatureOrZero (t : option Q) : Q :=
  match t with
  | Some q => if Qeq_bool q 0 then 0%Q else q
  | None => 0%Q
  end.

Section Provider.

(** The model handle that [createAiFunc({ apiKey })(modelName)] gives. *)
Variable ModelHandle : Type.

Record GenerateArgs := {
  gen_model : ModelHandle;
  gen_prompt : string;
  gen_temperature : Q;
  gen_system : option string;
  gen_schema : JsValue
}.

(** What [await generateObject(...)] gives: the object and the usage
    metadata (as [JSON.stringify(usage, null, 2)] prints it), or a
    rejection. *)
Inductive Generated :=
| Generates (object : JsValue) (usage : string)
| GenerateFails (reason : string).

(** The backend SDK. *)
Variable generateObject : GenerateArgs -> Generated.

Record AISDKProvider := {
  createAiFunc : string -> string -> ModelHandle;
  modelName : string
}.

Definition generateArgs (self : AISDKProvider) (llmApiKey : string)
    (cfg : InferenceConfig) : GenerateArgs :=
  let llm := createAiFunc self llmApiKey in
  {| gen_model := llm (modelName self);
     gen_prompt := prompt cfg;
     gen_temperature := temperatureOrZero (temperature cfg);
     gen_system := system cfg;
     gen_schema := toJsonSchema (schema cfg) |}.

(** The test of line 113. *)
Definition isWrapped (object : JsValue) : bool :=
  truthy object && typeofIsObject object && hasKey SENTINEL object.

(** Lines 112 to 119: what is done with the object received. *)
Definition handleResponse (s : Schema) (object : JsValue) : Outcome :=
  if isWrapped object then
    let unwrapped := getKey SENTINEL object in
    match parse s unwrapped with
    | ParseOk output => Resolved output
    | ParseThrows err => Rejected (ZodThrown err)
    end
  else Resolved object.

(** [runInference]: the lines logged through [info], and the outcome.
    [env] is [process.env] and [llmApiKey] is [config.llmApiKey]. *)
Definition runInference (self : AISDKProvider) (env : gmap string string)
    (llmApiKey : string) (cfg : InferenceConfig) : list string * Outcome :=
  match generateObject (generateArgs self llmApiKey cfg) with
  | GenerateFails reason => ([], Rejected (BackendThrown reason))
  | Generates object usage =>
      let logged :=
        match Js.truthyString (env !! "DEBUG") with
        | Some _ => ["usage: " +:+ String (ascii_of_nat 10) usage]
        | None => []
        end in
      (logged, handleResponse (schema cfg) object)
  end.

End Provider.

Arguments runInference {ModelHandle} generateObject self env llmApiKey cfg.
Arguments generateArgs {ModelHandle} self llmApiKey cfg.

(** *** Two schemas to run the provider on *)

Definition issue (c m : string) : ZodError :=
  {| issues := [ {| code := c; path := []; message := m |} ] |}.

(** [z.string()]: a string is accepted and returned as it is. *)
Definition zString : Schema :=
  {| parse v := match v with
                | JStr _ => ParseOk v
                | _ => ParseThrows (issue "invalid_type" "Expected string")
                end;
     toJsonSchema := JObj [("type", JStr "string")] |}.

(** [z.object({ summary: z.string() })]: an object with a string
    [summary] is accepted; as Zod objects do unless told otherwise, the
    output keeps the declared key only. *)
Definition zSummary : Schema :=
  {| parse v :=
       match v with
       | JObj props =>
           match getProp "summary" props with
           | Some (JStr s) => ParseOk (JObj [("summary", JStr s)])
           | _ => ParseThrows (issue "invalid_type" "Expected string")
           end
       | _ => ParseThrows (issue "invalid_type" "Expected object")
       end;
     toJsonSchema :=
       JObj [("type", JStr "object");
             ("properties", JObj [("summary", JObj [("type", JStr "string")])]);
             ("required", JArr [JStr "summary"])] |}.

(** A provider whose backend answers every request with [object]. *)
Definition constantBackend (object : JsValue) : GenerateArgs unit -> Generated :=
  fun _ => Generates object "{}".

Definition testProvider : AISDKProvider unit :=
  {| createAiFunc := fun _ _ => tt; modelName := "claude-sonnet-4-5" |}.

Definition request (s : Schema) : InferenceConfig :=
  {| prompt := "Review this diff"; temperature := None; system := None; schema := s |}.

End Inference.

(** ** The [path] module of Node (POSIX flavour)

    Paths are strings with [/] as separator; the operations follow the
    POSIX implementation of Node. *)

Module Path.

Definition isAbsolute (p : string) : bool := Js.startsWith p "/".

Definition isDotDot (seg : string) : bool := String.eqb seg "..".

(** The segments of a path with [.] and [..] resolved; [stack] holds
    the segments kept so far, the last one first. Above the root [..]
    is dropped; above a relative start it is kept when
    [allowAboveRoot]. *)
Fixpoint normalizeSegments (allowAboveRoot : bool) (stack segs : list string)
    : list string :=
  match segs with
  | [] => rev stack
  | seg :: rest =>
      if Js.isEmpty seg || String.eqb seg "." then
        normalizeSegments allowAboveRoot stack rest
      else if isDotDot seg then
        match stack with
        | top :: below =>
            if isDotDot top
            then normalizeSegments allowAboveRoot (seg :: stack) rest
            else normalizeSegments allowAboveRoot below rest
        | [] =>
            if allowAboveRoot
            then normalizeSegments allowAboveRoot [seg] rest
            else normalizeSegments allowAboveRoot [] rest
        end
      else normalizeSegments allowAboveRoot (seg :: stack) rest
  end.

Fixpoint endsWithSlash (p : string) : bool :=
  match p with
  | EmptyString => false
  | String c EmptyString => Ascii.eqb c "/"
  | String _ rest => endsWithSlash rest
  end.

(** [path.normalize]. *)
Definition normalize (p : string) : string :=
  if Js.isEmpty p then "." else
  let absolute := isAbsolute p in
  let trailing := endsWithSlash p in
  let body := Js.join "/" (normalizeSegments (negb absolute) [] (Js.split "/" p)) in
  if Js.isEmpty body then
    if absolute then "/" else if trailing then "./" else "."
  else
    (if absolute then "/" else EmptyString) +:+ body
      +:+ (if trailing then "/" else EmptyString).

(** [path.join(...parts)]. *)
Definition join (parts : list string) : string :=
  match filter (fun s => Js.isEmpty s = false) parts with
  | [] => "."
  | kept => normalize (Js.join "/" kept)
  end.

(** [path.resolve(cwd, p)] for an absolute [cwd]. *)
Definition resolve (cwd p : string) : string :=
  let full := if isAbsolute p then p
              else if Js.isEmpty p then cwd
              else cwd +:+ "/" +:+ p in
  "/" +:+ Js.join "/" (normalizeSegments false [] (Js.split "/" full)).

Fixpoint dropWhile {A} (f : A -> bool) (l : list A) : list A :=
  match l with
  | [] => []
  | x :: l' => if f x then dropWhile f l' else l
  end.

Definition isSlash (c : ascii) : bool := Ascii.eqb c "/".

(** [path.dirname]: the path up to its last separator, trailing
    separators apart. *)
Definition dirname (p : string) : string :=
  match list_ascii_of_string p with
  | [] => "."
  | first :: rest =>
      let hasRoot := isSlash first in
      let beforeName :=
        dropWhile (fun c => negb (isSlash c)) (dropWhile isSlash (rev rest)) in
      match beforeName with
      | [] => if hasRoot then "/" else "."
      | _ :: _ =>
          let end_ := length beforeName in
          if hasRoot && (end_ =? 1)%nat then "//"
          else string_of_list_ascii (take end_ (first :: rest))
      end
  end.

Fixpoint dropCommon (a b : list string) : list string * list string :=
  match a, b with
  | x :: a', y :: b' => if String.eqb x y then dropCommon a' b' else (a, b)
  | _, _ => (a, b)
  end.

Definition segmentsOf (p : string) : list string :=
  filter (fun s => Js.isEmpty s = false) (Js.split "/" p).

(** [path.relative(from, to)], both resolved against [cwd]. *)
Definition relative (cwd from to : string) : string :=
  let '(up, down) :=
    dropCommon (segmentsOf (resolve cwd from)) (segmentsOf (resolve cwd to)) in
  Js.join "/" (map (fun _ => "..") up ++ down).

(** *** Notions used to state the properties *)

(** A segment that names an entry: not empty, not [.] or [..], and
    without separator. *)
Definition plainSegment (seg : string) : Prop :=
  Js.isEmpty seg = false /\ String.eqb seg "." = false /\ isDotDot seg = false /\
  Forall (fun c => isSlash c = false) (list_ascii_of_string seg).

(** The absolute path with the given segments below the root. *)
Definition absoluteOf (segs : list string) : string := "/" +:+ Js.join "/" segs.

End Path.

(** ** The command line harness ([cli.ts]) *)

Module Cli.

Inductive Stream := Stdout | Stderr.

(** The function stored in [process.stdout.write] or
    [process.stderr.write]: the stream's own writer, or the closure of
    lines 98 to 105 (107 to 114) that pushes on the array [chunks] and
    then calls the writer it replaced. *)
Inductive Writer :=
| Original (s : Stream)
| Capturing (chunks : nat) (inner : Writer).

(** The argument of a write: text, or something else with the text
    that [String(str)] makes of it. *)
Inductive WriteArg :=
| Text (s : string)
| NotText (coerced : string).

Definition textOf (arg : WriteArg) : string :=
  match arg with Text s => s | NotText s => s end.

Record PullRequest := {
  number : Z;
  title : string;
  user : option string  (* [p.user?.login] *)
}.

Inductive Exception :=
| JsError (message : string)
| Rejection (reason : string)
| FsFailure (operation path : string).

Inductive Result (A : Type) :=
| Returns (a : A)
| Throws (e : Exception).
Arguments Returns {A} a.
Arguments Throws {A} e.

(** What the outside world saw of the process, in order: text on a
    stream, a command run by [execSync], a file handed to
    [dotenv.config], a request to the platform, an invocation of the
    review, a directory made and a file written. *)
Inductive Event :=
| Emitted (s : Stream) (text : string)
| Executed (command : string)
| ConfigLoaded (file : string)
| Paginated (token : string) (baseUrl owner repo : option string) (state : string)
| ReviewInvoked (env : gmap string string)
| DirectoryMade (dir : string)
| FileWritten (file content : string).

(** What [handlePullRequest] does as far as the harness can see: the
    writes to the two streams, then resolution or rejection (a failure
    of the dynamic import is a rejection with no write). *)
Record Review := {
  writes : list (Stream * WriteArg);
  rejection : option string
}.

(** A [.env] file as [dotenv.config] meets it. A file that cannot be
    read makes [dotenv.config] return an object with the error, and
    throw nothing; [DotenvThrows] is a call that does throw. *)
Inductive Dotenv :=
| DotenvParsed (vars : gmap string string)
| DotenvFails (err : string)
| DotenvThrows (err : string).

(** The collaborators outside the process. *)
Record World := {
  dotenvAt : string -> option Dotenv;
  ghAuthToken : option string;  (* stdout of [gh auth token]; [None] when [execSync] throws *)
  paginatePulls : string -> option string -> option string -> option string ->
                  string -> Result (list PullRequest);
  handlePullRequest : gmap string string -> Review;
  mkdirFails : string -> bool;
  writeFileFails : string -> bool
}.

(** The state of the process. *)
Record Process := {
  env : gmap string string;
  cwd : string;
  stdoutWrite : Writer;
  stderrWrite : Writer;
  buffers : list (list string);  (* the [chunks] arrays allocated so far *)
  files : gmap string string;
  trace : list Event
}.

Definition withEnv (f : gmap string string -> gmap string string) (p : Process) : Process :=
  {| env := f (env p); cwd := cwd p; stdoutWrite := stdoutWrite p;
     stderrWrite := stderrWrite p; buffers := buffers p; files := files p;
     trace := trace p |}.

Definition withWriters (out err : Writer) (p : Process) : Process :=
  {| env := env p; cwd := cwd p; stdoutWrite := out; stderrWrite := err;
     buffers := buffers p; files := files p; trace := trace p |}.

Definition withBuffers (f : list (list string) -> list (list string)) (p : Process) : Process :=
  {| env := env p; cwd := cwd p; stdoutWrite := stdoutWrite p;
     stderrWrite := stderrWrite p; buffers := f (buffers p); files := files p;
     trace := trace p |}.

Definition withFiles (f : gmap string string -> gmap string string) (p : Process) : Process :=
  {| env := env p; cwd := cwd p; stdoutWrite := stdoutWrite p;
     stderrWrite := stderrWrite p; buffers := buffers p; files := f (files p);
     trace := trace p |}.

Definition record (e : Event) (p : Process) : Process :=
  {| env := env p; cwd := cwd p; stdoutWrite := stdoutWrite p;
     stderrWrite := stderrWrite p; buffers := buffers p; files := files p;
     trace := trace p ++ [e] |}.

Definition setEnv (name value : string) : Process -> Process :=
  withEnv (insert name value).

Definition getEnv (name : string) (p : Process) : option string :=
  Js.truthyString (env p !! name).

(** *** The state-and-exception monad of the harness *)

Definition M (A : Type) : Type := Process -> Result A * Process.

Definition ret {A} (a : A) : M A := fun p => (Returns a, p).
Definition throw {A} (e : Exception) : M A := fun p => (Throws e, p).
Definition bind {A B} (m : M A) (k : A -> M B) : M B :=
  fun p => match m p with
           | (Returns a, p') => k a p'
           | (Throws e, p') => (Throws e, p')
           end.
Definition gets {A} (f : Process -> A) : M A := fun p => (Returns (f p), p).
Definition modify (f : Process -> Process) : M unit := fun p => (Returns tt, f p).

Notation "x <- m ;; k" := (bind m (fun x => k))
  (at level 100, m at next level, right associativity).
Notation "m ;;; k" := (bind m (fun _ => k))
  (at level 100, right associativity).

(** [try { body } finally { cleanup }]: [cleanup] always runs; what it
    throws replaces the outcome of [body]. *)
Definition tryFinally {A} (body : M A) (cleanup : M unit) : M A :=
  fun p => match body p with
           | (r, p') =>
               match cleanup p' with
               | (Returns _, p'') => (r, p'')
               | (Throws e, p'') => (Throws e, p'')
               end
           end.

Fixpoint forEach {A} (l : list A) (f : A -> M unit) : M unit :=
  match l with
  | [] => ret tt
  | x :: l' => f x ;;; forEach l' f
  end.

(** *** Writing to the streams *)

Definition pushChunk (chunks : nat) (text : string) : Process -> Process :=
  withBuffers (alter (fun c => c ++ [text]) chunks).

Fixpoint writeVia (w : Writer) (arg : WriteArg) (p : Process) : Process :=
  match w with
  | Original s => record (Emitted s (textOf arg)) p
  | Capturing chunks inner => writeVia inner arg (pushChunk chunks (textOf arg) p)
  end.

Definition writerOf (s : Stream) (p : Process) : Writer :=
  match s with Stdout => stdoutWrite p | Stderr => stderrWrite p end.

(** [process.stdout.write(arg)] or [process.stderr.write(arg)]. *)
Definition streamWrite (s : Stream) (arg : WriteArg) : M unit :=
  modify (fun p => writeVia (writerOf s p) arg p).

Definition newline : string := String (ascii_of_nat 10) EmptyString.

Definition consoleLog (line : string) : M unit :=
  streamWrite Stdout (Text (line +:+ newline)).

Definition consoleWarn (line : string) : M unit :=
  streamWrite Stderr (Text (line +:+ newline)).

(** *** Credentials *)

(** Lines 8 to 17. What [dotenv.config] throws is caught and logged;
    what it returns is dropped. *)
Definition loadDotEnvIfExists (w : World) : M unit :=
  envPath <- gets (fun p => Path.resolve (cwd p) ".env") ;;
  match dotenvAt w envPath with
  | None => ret tt
  | Some file =>
      modify (record (ConfigLoaded envPath)) ;;;
      match file with
      | DotenvParsed vars =>
          (* [dotenv.config] defines the names that are not defined yet *)
          modify (withEnv (fun e => e ∪ vars))
      | DotenvFails _ => ret tt
      | DotenvThrows err =>
          consoleWarn ("Failed to load .env file: " +:+ err)
      end
  end.

(** The error of line 38. *)
Definition NoCredentialError : Exception :=
  JsError "No GITHUB_TOKEN found; set env/.env or run `gh auth login`.".

(** [execSync('gh auth token', ...).trim()], with [try]/[catch] around it. *)
Definition tokenFromGh (w : World) : M string :=
  modify (record (Executed "gh auth token")) ;;;
  match ghAuthToken w with
  | Some out =>
      let token := Js.trim out in
      if Js.isEmpty token then throw NoCredentialError
      else modify (setEnv "GITHUB_TOKEN" token) ;;; ret token
  | None => throw NoCredentialError
  end.

(** Lines 19 to 39. *)
Definition resolveGitHubToken (w : World) : M string :=
  action <- gets (getEnv "GITHUB_ACTION") ;;
  (if action is Some _ then ret tt else modify (setEnv "GITHUB_ACTION" "local")) ;;;
  explicit <- gets (getEnv "GITHUB_TOKEN") ;;
  match explicit with
  | Some token => ret token
  | None =>
      loadDotEnvIfExists w ;;;
      loaded <- gets (getEnv "GITHUB_TOKEN") ;;
      match loaded with
      | Some token => ret token
      | None => tokenFromGh w
      end
  end.

(** *** Listing *)

(** The template of line 59. *)
Definition prLine (p : PullRequest) : string :=
  "#" +:+ Js.stringOfInt (number p) +:+ " " +:+ title p
      +:+ " by @" +:+ Js.template (user p).

(** [initOctokit(token, baseUrl)] and
    [octokit.paginate(octokit.rest.pulls.list, { owner, repo, state, per_page: 100 })]. *)
Definition paginate (w : World) (token : string) (baseUrl owner repo : option string)
    (state : string) : M (list PullRequest) :=
  modify (record (Paginated token baseUrl owner repo state)) ;;;
  fun p => (paginatePulls w token baseUrl owner repo state, p).

(** [all.slice(0, limit)]; [NaN] counts as 0, and the infinities as
    the two ends. *)
Definition sliceTo {A} (l : list A) (limit : Js.number) : list A :=
  match limit with
  | Js.NaN => []
  | Js.Num n => Js.slice0 l n
  | Js.Infinity negative => if negative then [] else l
  end.

(** Lines 41 to 61, with the defaults of [state] and [limit] applied by
    the caller. *)
Definition listPRs (w : World) (owner repo : option string) (state : string)
    (limit : Js.number) : M unit :=
  token <- resolveGitHubToken w ;;
  baseUrl <- gets (getEnv "GITHUB_API_URL") ;;
  all <- paginate w token baseUrl owner repo state ;;
  forEach (sliceTo all limit) (fun p => consoleLog (prLine p)).

(** *** Reviewing, with the optional transcript *)

(** The parameter [out?: string | boolean]. *)
Inductive OutArg :=
| OutFlag (b : bool)
| OutPath (p : string).

Definition outTruthy (out : option OutArg) : bool :=
  match out with
  | Some (OutFlag b) => b
  | Some (OutPath s) => negb (Js.isEmpty s)
  | None => false
  end.

Definition defaultOutPath (dir : string) (prNumber : Js.number) : string :=
  let sanitizedPrNum := Js.digitsOnly (Js.stringOfNumber prNumber) in
  Path.join [dir; "dry"; "pr-" +:+ sanitizedPrNum +:+ ".txt"].

(** Lines 89 to 92. *)
Definition outputPath (dir : string) (prNumber : Js.number) (out : option OutArg)
    : string :=
  match out with
  | Some (OutPath s) =>
      if negb (Js.isEmpty (Js.trim s))
      then (if Path.isAbsolute s then s else Path.join [dir; s])
      else defaultOutPath dir prNumber
  | _ => defaultOutPath dir prNumber
  end.

Definition mkdirSync (w : World) (dir : string) : M unit :=
  if mkdirFails w dir then throw (FsFailure "mkdir" dir)
  else modify (record (DirectoryMade dir)).

Definition writeFileSync (w : World) (file content : string) : M unit :=
  if writeFileFails w file then throw (FsFailure "open" file)
  else modify (fun p => record (FileWritten file content)
                          (withFiles (insert file content) p)).

Definition chunksOf (chunks : nat) (p : Process) : list string :=
  default [] (buffers p !! chunks).

(** The closure [restore] of lines 116 to 122, with the variables it
    captured. *)
Definition restore (w : World) (o1 o2 : Writer) (outPath : string) (chunks : nat)
    : M unit :=
  modify (withWriters o1 o2) ;;;
  mkdirSync w (Path.dirname outPath) ;;;
  content <- gets (fun p => Js.join EmptyString (chunksOf chunks p)) ;;
  writeFileSync w outPath content ;;;
  dir <- gets cwd ;;
  consoleLog (newline +:+ "[dry-run] Saved output to " +:+ Path.relative dir dir outPath).

(** Lines 85 to 123: when [out] is truthy the two writers are replaced
    and the closure that undoes it is returned. *)
Definition beginCapture (w : World) (prNumber : Js.number) (out : option OutArg)
    : M (option (M unit)) :=
  if outTruthy out then
    fun p =>
      let outPath := outputPath (cwd p) prNumber out in
      let chunks := length (buffers p) in
      let o1 := stdoutWrite p in
      let o2 := stderrWrite p in
      (Returns (Some (restore w o1 o2 outPath chunks)),
       withWriters (Capturing chunks o1) (Capturing chunks o2)
         (withBuffers (fun b => b ++ [[]]) p))
  else ret None.

(** [await import('./pull_request')] and [await mod.handlePullRequest()]. *)
Definition runReview (w : World) : M unit :=
  seen <- gets env ;;
  modify (record (ReviewInvoked seen)) ;;;
  let review := handlePullRequest w seen in
  forEach (writes review) (fun '(s, arg) => streamWrite s arg) ;;;
  match rejection review with
  | Some reason => throw (Rejection reason)
  | None => ret tt
  end.

(** Lines 63 to 131. *)
Definition reviewPR (w : World) (prNumber : Js.number) (dryRun : bool)
    (owner repo : option string) (out : option OutArg) : M unit :=
  resolveGitHubToken w ;;;
  modify (setEnv "DEBUG" "1") ;;;
  modify (setEnv "GITHUB_REPOSITORY" (Js.template owner +:+ "/" +:+ Js.template repo)) ;;;
  modify (setEnv "GITHUB_PULL_REQUEST" (Js.stringOfNumber prNumber)) ;;;
  modify (setEnv "GITHUB_EVENT_NAME" "pull_request") ;;;
  modify (setEnv "GITHUB_EVENT_ACTION" "synchronize") ;;;
  (if dryRun then modify (setEnv "DRY_RUN" "1") else ret tt) ;;;
  restore <- beginCapture w prNumber out ;;
  tryFinally (runReview w)
    (match restore with Some release => release | None => ret tt end).

(** *** Arguments *)

(** The object built by [parseArgs]; [args_positional] is its key [_].
    A key that was never set and a key set to [undefined] are both
    [None]: [main] reads them through [||] and [if] only. *)
Record Args := {
  args_positional : list string;
  args_dryRun : bool;
  args_listPrs : bool;
  args_state : option string;
  args_limit : option Js.number;
  args_pr : option Js.number;
  args_owner : option string;
  args_repo : option string;
  args_out : option OutArg
}.

Definition noArgs : Args :=
  {| args_positional := []; args_dryRun := false; args_listPrs := false;
     args_state := None; args_limit := None; args_pr := None;
     args_owner := None; args_repo := None; args_out := None |}.

Definition pushPositional (a : string) (r : Args) : Args :=
  {| args_positional := args_positional r ++ [a]; args_dryRun := args_dryRun r;
     args_listPrs := args_listPrs r; args_state := args_state r;
     args_limit := args_limit r; args_pr := args_pr r; args_owner := args_owner r;
     args_repo := args_repo r; args_out := args_out r |}.

Definition setDryRun (r : Args) : Args :=
  {| args_positional := args_positional r; args_dryRun := true;
     args_listPrs := args_listPrs r; args_state := args_state r;
     args_limit := args_limit r; args_pr := args_pr r; args_owner := args_owner r;
     args_repo := args_repo r; args_out := args_out r |}.

Definition setListPrs (r : Args) : Args :=
  {| args_positional := args_positional r; args_dryRun := args_dryRun r;
     args_listPrs := true; args_state := args_state r;
     args_limit := args_limit r; args_pr := args_pr r; args_owner := args_owner r;
     args_repo := args_repo r; args_out := args_out r |}.

Definition setState (v : option string) (r : Args) : Args :=
  {| args_positional := args_positional r; args_dryRun := args_dryRun r;
     args_listPrs := args_listPrs r; args_state := v;
     args_limit := args_limit r; args_pr := args_pr r; args_owner := args_owner r;
     args_repo := args_repo r; args_out := args_out r |}.

Definition setLimit (v : Js.number) (r : Args) : Args :=
  {| args_positional := args_positional r; args_dryRun := args_dryRun r;
     args_listPrs := args_listPrs r; args_state := args_state r;
     args_limit := Some v; args_pr := args_pr r; args_owner := args_owner r;
     args_repo := args_repo r; args_out := args_out r |}.

Definition setPr (v : Js.number) (r : Args) : Args :=
  {| args_positional := args_positional r; args_dryRun := args_dryRun r;
     args_listPrs := args_listPrs r; args_state := args_state r;
     args_limit := args_limit r; args_pr := Some v; args_owner := args_owner r;
     args_repo := args_repo r; args_out := args_out r |}.

Definition setOwner (v : option string) (r : Args) : Args :=
  {| args_positional := args_positional r; args_dryRun := args_dryRun r;
     args_listPrs := args_listPrs r; args_state := args_state r;
     args_limit := args_limit r; args_pr := args_pr r; args_owner := v;
     args_repo := args_repo r; args_out := args_out r |}.

Definition setRepo (v : option string) (r : Args) : Args :=
  {| args_positional := args_positional r; args_dryRun := args_dryRun r;
     args_listPrs := args_listPrs r; args_state := args_state r;
     args_limit := args_limit r; args_pr := args_pr r; args_owner := args_owner r;
     args_repo := v; args_out := args_out r |}.

Definition setOut (v : OutArg) (r : Args) : Args :=
  {| args_positional := args_positional r; args_dryRun := args_dryRun r;
     args_listPrs := args_listPrs r; args_state := args_state r;
     args_limit := args_limit r; args_pr := args_pr r; args_owner := args_owner r;
     args_repo := args_repo r; args_out := Some v |}.

(** [argv[++i] || fallback]. *)
Definition orDefault (fallback : string) (next : option string) : string :=
  default fallback (Js.truthyString next).

(** The test of line 155: [next && !next.startsWith('-')]. *)
Definition isPathToken (next : string) : bool :=
  negb (Js.isEmpty next) && negb (Js.startsWith next "-").

(** The loop of [parseArgs] from index [i] on: [argv] holds the tokens
    from [argv[i]]. A flag that takes a value reads [argv[++i]], which
    is [undefined] past the end. *)
Fixpoint parseLoop (args : Args) (argv : list string) : Args :=
  match argv with
  | [] => args
  | a :: rest =>
      if String.eqb a "--dry-run" then parseLoop (setDryRun args) rest
      else if String.eqb a "--list-prs" then parseLoop (setListPrs args) rest
      else if String.eqb a "--state" then
        match rest with
        | [] => setState None args
        | v :: after => parseLoop (setState (Some v) args) after
        end
      else if String.eqb a "--limit" then
        match rest with
        | [] => setLimit (Js.parseInt (orDefault "10" None)) args
        | v :: after => parseLoop (setLimit (Js.parseInt (orDefault "10" (Some v))) args) after
        end
      else if String.eqb a "--pr" then
        match rest with
        | [] => setPr (Js.parseInt (orDefault "0" None)) args
        | v :: after => parseLoop (setPr (Js.parseInt (orDefault "0" (Some v))) args) after
        end
      else if String.eqb a "--owner" then
        match rest with
        | [] => setOwner None args
        | v :: after => parseLoop (setOwner (Some v) args) after
        end
      else if String.eqb a "--repo" then
        match rest with
        | [] => setRepo None args
        | v :: after => parseLoop (setRepo (Some v) args) after
        end
      else if String.eqb a "--out" || String.eqb a "-out" then
        match rest with
        | next :: after =>
            if isPathToken next
            then parseLoop (setOut (OutPath next) args) after
            else parseLoop (setOut (OutFlag true) args) rest
        | [] => parseLoop (setOut (OutFlag true) args) rest
        end
      else parseLoop (pushPositional a args) rest
  end.

Definition parseArgs (argv : list string) : Args := parseLoop noArgs argv.

(** *** Dispatch *)

Definition usage : string :=
"Usage:
  review --list-prs [--owner <owner>] [--repo <repo>] [--state open|closed|all] [--limit N]
  review --pr <number> [--owner <owner>] [--repo <repo>] [--dry-run] [--out [path] | -out [path]]

Examples:
  review --list-prs --owner shawnd --repo pr-reviewer
  review --pr 123 --dry-run
  review --pr 123 --dry-run --out review-output.txt
  review --pr 123 --owner myorg --repo myrepo

Environment:
  Set GITHUB_REPOSITORY=owner/repo to avoid specifying --owner and --repo each time
  Set GITHUB_TOKEN or authenticate with 'gh auth login'
".

(** [n || fallback] on [number | undefined]. *)
Definition numberOr (n : option Js.number) (fallback : Z) : Js.number :=
  match n with
  | Some v => if Js.numberTruthy v then v else Js.Num fallback
  | None => Js.Num fallback
  end.

Definition truthyNumber (n : option Js.number) : option Js.number :=
  match n with
  | Some v => if Js.numberTruthy v then Some v else None
  | None => None
  end.

(** Lines 173 to 177: the owner and the repository aimed at. *)
Definition repositoryOf (args : Args) (p : Process) : option string * option string :=
  let defaultRepo := default "shawnd/pr-reviewer" (getEnv "GITHUB_REPOSITORY" p) in
  let parts := Js.split "/" defaultRepo in
  let defaultOwner := parts !! 0%nat in
  let defaultRepoName := parts !! 1%nat in
  (Js.orElse (args_owner args) defaultOwner, Js.orElse (args_repo args) defaultRepoName).

(** [main], given [process.argv.slice(2)]. *)
Definition main (w : World) (argv : list string) : M unit :=
  let args := parseArgs argv in
  target <- gets (repositoryOf args) ;;
  let '(owner, repo) := target in
  if args_listPrs args then
    listPRs w owner repo (orDefault "open" (args_state args)) (numberOr (args_limit args) 10)
  else
    match truthyNumber (args_pr args) with
    | Some prNumber => reviewPR w prNumber (args_dryRun args) owner repo (args_out args)
    | None => consoleLog usage
    end.

(** *** A process and a world to run the harness in *)

Definition freshProcess (dir : string) (e : gmap string string) : Process :=
  {| env := e; cwd := dir; stdoutWrite := Original Stdout;
     stderrWrite := Original Stderr; buffers := []; files := ∅; trace := [] |}.

Definition quietReview : Review := {| writes := []; rejection := None |}.

Definition emptyWorld : World :=
  {| dotenvAt := fun _ => None;
     ghAuthToken := None;
     paginatePulls := fun _ _ _ _ _ => Returns [];
     handlePullRequest := fun _ => quietReview;
     mkdirFails := fun _ => false;
     writeFileFails := fun _ => false |}.

(** A review that writes on both streams and then rejects. *)
Definition failingReview : Review :=
  {| writes := [(Stdout, Text ("Reviewing PR 42" +:+ newline));
                (Stderr, NotText ("warning: large diff" +:+ newline));
                (Stdout, Text ("posting skipped (dry run)" +:+ newline))];
     rejection := Some "model backend unavailable" |}.

Definition fivePulls : list PullRequest :=
  [ {| number := 57; title := "Add retry"; user := Some "alice" |};
    {| number := 56; title := "Fix typo"; user := Some "bob" |};
    {| number := 54; title := "Bump deps"; user := None |};
    {| number := 51; title := "Refactor cli"; user := Some "carol" |};
    {| number := 50; title := "Docs"; user := Some "dave" |} ].

(** A machine with a session of the GitHub CLI, a [.env] file that
    cannot be read, five open pull requests and a failing review. *)
Definition sessionWorld : World :=
  {| dotenvAt := fun _ => Some (DotenvFails "EACCES");
     ghAuthToken := Some ("gho_abc" +:+ newline);
     paginatePulls := fun _ _ _ _ _ => Returns fivePulls;
     handlePullRequest := fun _ => failingReview;
     mkdirFails := fun _ => false;
     writeFileFails := fun _ => false |}.

(** The same machine with a [.env] file that defines a token. *)
Definition dotenvWorld : World :=
  {| dotenvAt := fun _ => Some (DotenvParsed {["GITHUB_TOKEN" := "ghp_file"]});
     ghAuthToken := Some ("gho_abc" +:+ newline);
     paginatePulls := fun _ _ _ _ _ => Returns fivePulls;
     handlePullRequest := fun _ => failingReview;
     mkdirFails := fun _ => false;
     writeFileFails := fun _ => false |}.

(** A machine without a session where [dotenv.config] throws. *)
Definition throwingDotenvWorld : World :=
  {| dotenvAt := fun _ => Some (DotenvThrows "Error: DECRYPTION_FAILED");
     ghAuthToken := None;
     paginatePulls := fun _ _ _ _ _ => Returns [];
     handlePullRequest := fun _ => quietReview;
     mkdirFails := fun _ => false;
     writeFileFails := fun _ => false |}.

(** *** Notions used to state the properties *)

(** The stream that a writer finally writes to. *)
Fixpoint baseStream (w : Writer) : Stream :=
  match w with
  | Original s => s
  | Capturing _ inner => baseStream inner
  end.

(** Every array that the writer pushes on is among the first [n]
    arrays allocated. *)
Fixpoint idsBelow (n : nat) (w : Writer) : Prop :=
  match w with
  | Original _ => True
  | Capturing chunks inner => (chunks < n)%nat /\ idsBelow n inner
  end.

(** The writers installed refer to arrays that exist. *)
Definition wellFormed (p : Process) : Prop :=
  idsBelow (length (buffers p)) (stdoutWrite p) /\
  idsBelow (length (buffers p)) (stderrWrite p).

(** Lines 74 to 82 of [reviewPR], on the environment. *)
Definition reviewEnv (prNumber : Js.number) (dryRun : bool) (owner repo : option string)
    (e : gmap string string) : gmap string string :=
  let e5 :=
    <["GITHUB_EVENT_ACTION" := "synchronize"]>
      (<["GITHUB_EVENT_NAME" := "pull_request"]>
         (<["GITHUB_PULL_REQUEST" := Js.stringOfNumber prNumber]>
            (<["GITHUB_REPOSITORY" := Js.template owner +:+ "/" +:+ Js.template repo]>
               (<["DEBUG" := "1"]> e)))) in
  if dryRun then <["DRY_RUN" := "1"]> e5 else e5.

(** What reaches the real stream when [arg] is written to [s]. *)
Definition passedThrough (p : Process) (write : Stream * WriteArg) : Event :=
  Emitted (baseStream (writerOf (fst write) p)) (textOf (snd write)).

(** The text of a sequence of writes, in the order of the writes. *)
Definition transcriptOf (ws : list (Stream * WriteArg)) : string :=
  Js.join EmptyString (map (fun write => textOf (snd write)) ws).

(** The three sources of a token, in the state [p]: the environment,
    the [.env] file of the working directory ([dotenv.config] defines
    the names that the environment does not define, so the file gives
    no token when the environment holds an empty one) and the output of
    [gh auth token]. *)
Definition explicitToken (p : Process) : option string := getEnv "GITHUB_TOKEN" p.

Definition fileToken (w : World) (p : Process) : option string :=
  match dotenvAt w (Path.resolve (cwd p) ".env") with
  | Some (DotenvParsed vars) => Js.truthyString ((env p ∪ vars) !! "GITHUB_TOKEN")
  | _ => None
  end.

Definition sessionToken (w : World) : option string :=
  match ghAuthToken w with
  | Some out => Js.truthyString (Some (Js.trim out))
  | None => None
  end.

(** Line 21 of [resolveGitHubToken], on the state. *)
Definition ensureAction (p : Process) : Process :=
  if getEnv "GITHUB_ACTION" p is Some _ then p else setEnv "GITHUB_ACTION" "local" p.

(** The state that [loadDotEnvIfExists] leaves. *)
Definition afterDotenv (w : World) (p : Process) : Process :=
  let envPath := Path.resolve (cwd p) ".env" in
  match dotenvAt w envPath with
  | None => p
  | Some (DotenvParsed vars) => withEnv (fun e => e ∪ vars) (record (ConfigLoaded envPath) p)
  | Some (DotenvFails _) => record (ConfigLoaded envPath) p
  | Some (DotenvThrows err) =>
      writeVia (stderrWrite p) (Text (("Failed to load .env file: " +:+ err) +:+ newline))
        (record (ConfigLoaded envPath) p)
  end.

(** What [loadDotEnvIfExists] adds to the trace: nothing without a
    [.env] file; else the file is handed to [dotenv.config], and a
    warning reaches the error stream when that call throws. *)
Definition dotenvEvents (w : World) (p : Process) : list Event :=
  let envPath := Path.resolve (cwd p) ".env" in
  match dotenvAt w envPath with
  | None => []
  | Some (DotenvParsed _) => [ConfigLoaded envPath]
  | Some (DotenvFails _) => [ConfigLoaded envPath]
  | Some (DotenvThrows err) =>
      [ConfigLoaded envPath;
       Emitted (baseStream (stderrWrite p))
         (("Failed to load .env file: " +:+ err) +:+ newline)]
  end.

(** The line that the listing prints for a pull request, as it reaches
    the stream behind [process.stdout.write]. *)
Definition printedLine (p : Process) (pr : PullRequest) : Event :=
  Emitted (baseStream (stdoutWrite p)) (prLine pr +:+ newline).

(** [main] on [argv] resolves the token, leaving [p1], asks the
    platform once and prints the lines of [prs], in order, and nothing
    else. *)
Definition listingPrints (w : World) (argv : list string) (p p1 : Process)
    (token : string) (prs : list PullRequest) : Prop :=
  let '(r, p') := main w argv p in
  let '(owner, repo) := repositoryOf (parseArgs argv) p in
  r = Returns tt /\
  trace p' = trace p1
    ++ Paginated token (getEnv "GITHUB_API_URL" p1) owner repo
         (orDefault "open" (args_state (parseArgs argv)))
    :: map (printedLine p) prs.

(** The environments that the review collaborator was invoked in. *)
Fixpoint invocations (tr : list Event) : list (gmap string string) :=
  match tr with
  | [] => []
  | ReviewInvoked seen :: tr' => seen :: invocations tr'
  | _ :: tr' => invocations tr'
  end.

(** The files written, with their content, in order. *)
Fixpoint filesWritten (tr : list Event) : list (string * string) :=
  match tr with
  | [] => []
  | FileWritten file content :: tr' => (file, content) :: filesWritten tr'
  | _ :: tr' => filesWritten tr'
  end.

(** The three events of a release: the directory, the file, and the
    confirmation line as it reaches the stream behind [o1]. *)
Definition released (dir : string) (o1 : Writer) (outPath content : string) : list Event :=
  [DirectoryMade (Path.dirname outPath);
   FileWritten outPath content;
   Emitted (baseStream o1)
     ((newline +:+ "[dry-run] Saved output to " +:+ Path.relative dir dir outPath)
        +:+ newline)].

(** Successive calls of [resolveGitHubToken], each in its own world. *)
Fixpoint resolveEach (ws : list World) : M (list string) :=
  match ws with
  | [] => ret []
  | w :: ws' =>
      token <- resolveGitHubToken w ;;
      tokens <- resolveEach ws' ;;
      ret (token :: tokens)
  end.

(** *** Further notions and worlds *)

(** *** Notions used to state further properties *)

(** The tokens that [parseArgs] gives a meaning to. *)
Definition flags : list string :=
  ["--dry-run"; "--list-prs"; "--state"; "--limit"; "--pr"; "--owner"; "--repo";
   "--out"; "-out"].

Definition isFlag (a : string) : bool := existsb (String.eqb a) flags.

(** One turn of the loop of [parseArgs] at the token [a], with the
    tokens [rest] after it: the object after the turn and the tokens
    left for the next turns. *)
Definition parseStep (args : Args) (a : string) (rest : list string)
    : Args * list string :=
  if String.eqb a "--dry-run" then (setDryRun args, rest)
  else if String.eqb a "--list-prs" then (setListPrs args, rest)
  else if String.eqb a "--state" then (setState (head rest) args, tail rest)
  else if String.eqb a "--limit" then
    (setLimit (Js.parseInt (orDefault "10" (head rest))) args, tail rest)
  else if String.eqb a "--pr" then
    (setPr (Js.parseInt (orDefault "0" (head rest))) args, tail rest)
  else if String.eqb a "--owner" then (setOwner (head rest) args, tail rest)
  else if String.eqb a "--repo" then (setRepo (head rest) args, tail rest)
  else if String.eqb a "--out" || String.eqb a "-out" then
    match rest with
    | next :: after =>
        if isPathToken next then (setOut (OutPath next) args, after)
        else (setOut (OutFlag true) args, rest)
    | [] => (setOut (OutFlag true) args, rest)
    end
  else (pushPositional a args, rest).

(** The object that [parseArgs] builds from tokens without meaning. *)
Definition positionalOnly (argv : list string) : Args :=
  {| args_positional := argv; args_dryRun := false; args_listPrs := false;
     args_state := None; args_limit := None; args_pr := None;
     args_owner := None; args_repo := None; args_out := None |}.

(** A machine whose platform rejects every request. *)
Definition unreachablePlatform : World :=
  {| dotenvAt := fun _ => None;
     ghAuthToken := Some "gho_abc";
     paginatePulls := fun _ _ _ _ _ => Throws (JsError "HttpError: Not Found");
     handlePullRequest := fun _ => quietReview;
     mkdirFails := fun _ => false;
     writeFileFails := fun _ => false |}.

(** The variables that lines 74 to 82 of [reviewPR] write. *)
Definition shimVariables : list string :=
  ["DEBUG"; "GITHUB_REPOSITORY"; "GITHUB_PULL_REQUEST"; "GITHUB_EVENT_NAME";
   "GITHUB_EVENT_ACTION"; "DRY_RUN"].

(** The outcome of the review flow when the release does not fail: that
    of the delegated review. *)
Definition reviewOutcome (review : Review) : Result unit :=
  match rejection review with
  | Some reason => Throws (Rejection reason)
  | None => Returns tt
  end.

(** A machine on which no directory can be made. *)
Definition readOnlyWorld : World :=
  {| dotenvAt := fun _ => None;
     ghAuthToken := Some "gho_abc";
     paginatePulls := fun _ _ _ _ _ => Returns [];
     handlePullRequest := fun _ => failingReview;
     mkdirFails := fun _ => true;
     writeFileFails := fun _ => true |}.

End Cli.

(** * Properties of the inference provider *)

Module InferenceFacts.
Import Inference.

(** The test of line 113 holds exactly for an object that has the
    reserved key among its properties. *)
Lemma isWrapped_spec (object : JsValue) :
  isWrapped object = true <->
  exists props payload, object = JObj props /\ getProp SENTINEL props = Some payload.
Proof.
  unfold isWrapped. split.
  - destruct object as [| |b|n|s|items|props]; simpl;
      rewrite ?andb_false_r; try discriminate.
    destruct (getProp SENTINEL props) as [payload|] eqn:E; [|discriminate].
    intros _. exists props, payload. auto.
  - intros (props & payload & -> & E). simpl. now rewrite E.
Qed.

Lemma getKey_wrapped (props : list (string * JsValue)) (payload : JsValue) :
  getProp SENTINEL props = Some payload -> getKey SENTINEL (JObj props) = payload.
Proof. intros E. simpl. now rewrite E. Qed.

Lemma handleResponse_direct (s : Schema) (object : JsValue) :
  isWrapped object = false -> handleResponse s object = Resolved object.
Proof. intros E. unfold handleResponse. now rewrite E. Qed.

Lemma handleResponse_wrapped (s : Schema) props payload :
  getProp SENTINEL props = Some payload ->
  handleResponse s (JObj props) =
    match parse s payload with
    | ParseOk output => Resolved output
    | ParseThrows err => Rejected (ZodThrown err)
    end.
Proof.
  intros E. unfold handleResponse.
  assert (W : isWrapped (JObj props) = true) by (apply isWrapped_spec; eauto).
  rewrite W. now rewrite (getKey_wrapped _ _ E).
Qed.

Lemma runInference_outcome {H : Type} (gen : GenerateArgs H -> Generated)
    (self : AISDKProvider H) env key cfg object usage :
  gen (generateArgs self key cfg) = Generates object usage ->
  snd (runInference gen self env key cfg) = handleResponse (schema cfg) object.
Proof. intros G. unfold runInference. now rewrite G. Qed.

(** C1, as the code has it: a response without the reserved key (or
    one that is not an object) is returned as it was received, whatever
    the schema says of it; a response with the reserved key has its
    payload parsed by the schema of the request, and the call fails
    with the very error [schema.parse] throws, or returns the output of
    [schema.parse]. *)
Theorem runInference_response {H : Type} (gen : GenerateArgs H -> Generated)
    (self : AISDKProvider H) env key cfg object usage :
  gen (generateArgs self key cfg) = Generates object usage ->
  (isWrapped object = false ->
     snd (runInference gen self env key cfg) = Resolved object) /\
  (forall props payload,
     object = JObj props -> getProp SENTINEL props = Some payload ->
     (forall err, parse (schema cfg) payload = ParseThrows err ->
        snd (runInference gen self env key cfg) = Rejected (ZodThrown err)) /\
     (forall output, parse (schema cfg) payload = ParseOk output ->
        snd (runInference gen self env key cfg) = Resolved output)).
Proof.
  intros G. rewrite (runInference_outcome _ _ _ _ _ _ _ G). split.
  - apply handleResponse_direct.
  - intros props payload -> E. rewrite (handleResponse_wrapped _ _ _ E).
    split; intros ? P; now rewrite P.
Qed.

Lemma runInference_response_witness :
  snd (runInference (constantBackend (JStr "LGTM")) testProvider ∅ "key" (request zString))
    = Resolved (JStr "LGTM").
Proof.
  exact (proj1 (runInference_response (constantBackend (JStr "LGTM")) testProvider ∅
                  "key" (request zString) (JStr "LGTM") "{}" eq_refl) eq_refl).
Defined.

(** C1 as stated fails: the number 5 is no instance of [z.string()]
    and is no wrapped object either, yet [runInference] returns it. *)
Lemma runInference_returns_invalid_direct :
  ~ (forall (gen : GenerateArgs unit -> Generated) self env key cfg object usage,
       gen (generateArgs self key cfg) = Generates object usage ->
       (forall output, parse (schema cfg) object <> ParseOk output) ->
       (forall output, isWrapped object = true ->
          parse (schema cfg) (getKey SENTINEL object) <> ParseOk output) ->
       exists err, snd (runInference gen self env key cfg) = Rejected (ZodThrown err)).
Proof.
  intros claim.
  destruct (claim (constantBackend (JNum 5)) testProvider ∅ "key"
              (request zString) (JNum 5) "{}" eq_refl) as [err E].
  - intros output; discriminate.
  - intros output; discriminate.
  - discriminate E.
Qed.

(** C2, as the code has it: for a response that is an object with the
    reserved key, whose payload the schema accepts, [runInference]
    returns the output of [schema.parse] on the payload; that is the
    payload itself when [schema.parse] returns it unchanged. *)
Theorem runInference_unwraps {H : Type} (gen : GenerateArgs H -> Generated)
    (self : AISDKProvider H) env key cfg props payload usage output :
  gen (generateArgs self key cfg) = Generates (JObj props) usage ->
  getProp SENTINEL props = Some payload ->
  parse (schema cfg) payload = ParseOk output ->
  snd (runInference gen self env key cfg) = Resolved output /\
  (output = payload -> snd (runInference gen self env key cfg) = Resolved payload).
Proof.
  intros G E P.
  rewrite (runInference_outcome _ _ _ _ _ _ _ G), (handleResponse_wrapped _ _ _ E), P.
  split; [reflexivity | intros <-; reflexivity].
Qed.

Lemma runInference_unwraps_witness :
  snd (runInference (constantBackend (JObj [(SENTINEL, JStr "LGTM")])) testProvider ∅
         "key" (request zString)) = Resolved (JStr "LGTM").
Proof.
  exact (proj1 (runInference_unwraps (constantBackend (JObj [(SENTINEL, JStr "LGTM")]))
           testProvider ∅ "key" (request zString) [(SENTINEL, JStr "LGTM")]
           (JStr "LGTM") "{}" (JStr "LGTM") eq_refl eq_refl eq_refl)).
Defined.

(** C2 as stated fails: the payload below is accepted by
    [z.object({ summary: z.string() })], and what is returned is the
    parsed object, without the key the schema does not declare. *)
Lemma runInference_returns_parse_output :
  ~ (forall (gen : GenerateArgs unit -> Generated) self env key cfg props payload usage,
       gen (generateArgs self key cfg) = Generates (JObj props) usage ->
       getProp SENTINEL props = Some payload ->
       (exists output, parse (schema cfg) payload = ParseOk output) ->
       snd (runInference gen self env key cfg) = Resolved payload).
Proof.
  intros claim.
  pose (payload := JObj [("summary", JStr "ok"); ("confidence", JNum 9)]).
  specialize (claim (constantBackend (JObj [(SENTINEL, payload)])) testProvider ∅ "key"
                (request zSummary) [(SENTINEL, payload)] payload "{}" eq_refl eq_refl).
  assert (A : exists output, parse (schema (request zSummary)) payload = ParseOk output)
    by (eexists; reflexivity).
  specialize (claim A). discriminate claim.
Qed.

(** The provider on the two responses above, evaluated. *)
Example runInference_number_for_string :
  runInference (constantBackend (JNum 5)) testProvider ∅ "key" (request zString)
    = ([], Resolved (JNum 5)).
Proof. reflexivity. Qed.

Example runInference_strips_undeclared_key :
  runInference
    (constantBackend
       (JObj [(SENTINEL, JObj [("summary", JStr "ok"); ("confidence", JNum 9)])]))
    testProvider {["DEBUG" := "1"]} "key" (request zSummary)
    = (["usage: " +:+ String (ascii_of_nat 10) "{}"],
       Resolved (JObj [("summary", JStr "ok")])).
Proof. reflexivity. Qed.

Example runInference_rejects_wrapped_number :
  snd (runInference (constantBackend (JObj [(SENTINEL, JNum 5)])) testProvider ∅ "key"
         (request zString))
    = Rejected (ZodThrown (issue "invalid_type" "Expected string")).
Proof. reflexivity. Qed.

End InferenceFacts.

(** * Properties of the path operations *)

Module PathFacts.
Import Path.

Lemma append_cons (c : ascii) (s t : string) : String c s +:+ t = String c (s +:+ t).
Proof. reflexivity. Qed.

Lemma append_empty_l (s : string) : EmptyString +:+ s = s.
Proof. reflexivity. Qed.

Lemma append_empty_r (s : string) : s +:+ EmptyString = s.
Proof.
  induction s as [| c s IH]; [reflexivity |]. now rewrite append_cons, IH.
Qed.

Lemma append_assoc (a b c : string) : (a +:+ b) +:+ c = a +:+ (b +:+ c).
Proof.
  induction a as [| x a IH]; [reflexivity |]. now rewrite !append_cons, IH.
Qed.

Lemma split_nonempty (sep : ascii) (s : string) : Js.split sep s <> [].
Proof.
  induction s as [| c s IH]; simpl; [discriminate |].
  destruct (Ascii.eqb c sep); [discriminate |].
  destruct (Js.split sep s); discriminate.
Qed.

(** Splitting at the separators gives back the segments joined. *)
Lemma split_segment (seg rest : string) :
  Forall (fun c => isSlash c = false) (list_ascii_of_string seg) ->
  Js.split "/" (seg +:+ String "/" rest) = seg :: Js.split "/" rest.
Proof.
  induction seg as [| c seg IH]; intros Hplain.
  - reflexivity.
  - simpl in Hplain. inversion Hplain as [| ? ? Hc Hrest]; subst.
    rewrite append_cons. simpl. unfold isSlash in Hc. rewrite Hc. now rewrite (IH Hrest).
Qed.

Lemma split_last (seg : string) :
  Forall (fun c => isSlash c = false) (list_ascii_of_string seg) ->
  Js.split "/" seg = [seg].
Proof.
  induction seg as [| c seg IH]; simpl; intros Hplain.
  - reflexivity.
  - inversion Hplain as [| ? ? Hc Hrest]; subst.
    unfold isSlash in Hc. rewrite Hc. now rewrite (IH Hrest).
Qed.

Lemma split_join (segs : list string) :
  segs <> [] ->
  Forall (fun seg => Forall (fun c => isSlash c = false) (list_ascii_of_string seg)) segs ->
  Js.split "/" (Js.join "/" segs) = segs.
Proof.
  induction segs as [| seg segs IH]; [congruence |].
  intros _ Hall. inversion Hall as [| ? ? Hseg Hrest]; subst.
  destruct segs as [| seg' segs].
  - simpl. now apply split_last.
  - change (Js.join "/" (seg :: seg' :: segs))
      with (seg +:+ String "/" (Js.join "/" (seg' :: segs))).
    rewrite (split_segment _ _ Hseg). f_equal. apply IH; [discriminate | assumption].
Qed.

Lemma join_app (a b : list string) :
  a <> [] -> b <> [] ->
  Js.join "/" (a ++ b) = Js.join "/" a +:+ String "/" (Js.join "/" b).
Proof.
  induction a as [| x a IH]; [congruence |]. intros _ Hb.
  destruct a as [| y a].
  - destruct b; [congruence | reflexivity].
  - change (Js.join "/" ((x :: y :: a) ++ b))
      with (x +:+ String "/" (Js.join "/" ((y :: a) ++ b))).
    rewrite IH by (discriminate || assumption).
    change (Js.join "/" (x :: y :: a)) with (x +:+ String "/" (Js.join "/" (y :: a))).
    now rewrite append_assoc.
Qed.

(** Plain segments are kept as they are. *)
Lemma normalizeSegments_plain (above : bool) (segs stack rest : list string) :
  Forall plainSegment segs ->
  normalizeSegments above stack (segs ++ rest)
    = normalizeSegments above (rev segs ++ stack) rest.
Proof.
  revert stack. induction segs as [| seg segs IH]; intros stack Hall; [reflexivity |].
  inversion Hall as [| ? ? (He & Hd & Hdd & _) Hrest]; subst.
  simpl. rewrite He, Hd, Hdd. simpl. rewrite (IH _ Hrest).
  now rewrite <- app_assoc.
Qed.

Lemma plain_no_slash (segs : list string) :
  Forall plainSegment segs ->
  Forall (fun seg => Forall (fun c => isSlash c = false) (list_ascii_of_string seg)) segs.
Proof.
  intros Hall. eapply Forall_impl; [exact Hall |].
  intros seg (_ & _ & _ & H). exact H.
Qed.

Lemma plain_not_empty (segs : list string) :
  Forall plainSegment segs -> filter (fun s => Js.isEmpty s = false) segs = segs.
Proof.
  induction 1 as [| seg segs (He & _) _ IH]; [reflexivity |].
  rewrite filter_cons. destruct (decide (Js.isEmpty seg = false)); [| contradiction].
  now rewrite IH.
Qed.

Lemma split_absoluteOf (segs : list string) :
  segs <> [] -> Forall plainSegment segs ->
  Js.split "/" (absoluteOf segs) = EmptyString :: segs.
Proof.
  intros Hne Hall. unfold absoluteOf.
  change (Js.split "/" ("/" +:+ Js.join "/" segs))
    with (EmptyString :: Js.split "/" (Js.join "/" segs)).
  now rewrite (split_join segs Hne (plain_no_slash _ Hall)).
Qed.

Lemma join_first_char (segs : list string) :
  segs <> [] -> Forall plainSegment segs -> Js.isEmpty (Js.join "/" segs) = false.
Proof.
  intros Hne Hall. destruct segs as [| seg segs]; [congruence |].
  inversion Hall as [| ? ? (He & _) _]; subst.
  destruct seg; [discriminate |]. destruct segs; reflexivity.
Qed.

Lemma endsWithSlash_app (a b : string) :
  Js.isEmpty b = false -> endsWithSlash (a +:+ b) = endsWithSlash b.
Proof.
  intros Hb. induction a as [| c a IH]; [reflexivity |].
  rewrite append_cons, <- IH.
  assert (Hne : Js.isEmpty (a +:+ b) = false).
  { destruct a; [exact Hb | reflexivity]. }
  destruct (a +:+ b); [discriminate | reflexivity].
Qed.

Lemma endsWithSlash_plain (seg : string) :
  Forall (fun c => isSlash c = false) (list_ascii_of_string seg) ->
  endsWithSlash seg = false.
Proof.
  induction seg as [| c seg IH]; [reflexivity |]. simpl. intros Hall.
  inversion Hall as [| ? ? Hc Hrest]; subst.
  destruct seg; [exact Hc | now apply IH].
Qed.

Lemma endsWithSlash_join (segs : list string) :
  segs <> [] -> Forall plainSegment segs -> endsWithSlash (Js.join "/" segs) = false.
Proof.
  induction segs as [| seg segs IH]; [congruence |].
  intros _ Hall. inversion Hall as [| ? ? (He & _ & _ & Hs) Hrest]; subst.
  destruct segs as [| seg' segs].
  - simpl. now apply endsWithSlash_plain.
  - change (Js.join "/" (seg :: seg' :: segs))
      with (seg +:+ String "/" (Js.join "/" (seg' :: segs))).
    rewrite endsWithSlash_app by reflexivity.
    assert (Hj : Js.isEmpty (Js.join "/" (seg' :: segs)) = false)
      by (apply join_first_char; [discriminate | assumption]).
    specialize (IH ltac:(discriminate) Hrest).
    destruct (Js.join "/" (seg' :: segs)); [discriminate Hj | exact IH].
Qed.

Lemma isAbsolute_absoluteOf (segs : list string) : isAbsolute (absoluteOf segs) = true.
Proof.
  unfold isAbsolute, Js.startsWith, absoluteOf. rewrite append_cons, append_empty_l.
  simpl. now destruct (Js.join "/" segs).
Qed.

Lemma normalizeSegments_rooted (segs : list string) :
  Forall plainSegment segs ->
  normalizeSegments false [] (EmptyString :: segs) = segs.
Proof.
  intros Hall.
  change (normalizeSegments false [] (EmptyString :: segs))
    with (normalizeSegments false [] segs).
  pose proof (normalizeSegments_plain false segs [] [] Hall) as H.
  rewrite !app_nil_r in H. rewrite H. simpl. apply rev_involutive.
Qed.

(** A normalized absolute path is left as it is. *)
Lemma normalize_absoluteOf (segs : list string) :
  segs <> [] -> Forall plainSegment segs ->
  normalize (absoluteOf segs) = absoluteOf segs.
Proof.
  intros Hne Hall.
  assert (Hend : endsWithSlash (absoluteOf segs) = false).
  { unfold absoluteOf. rewrite endsWithSlash_app by (now apply join_first_char).
    now apply endsWithSlash_join. }
  unfold normalize.
  rewrite isAbsolute_absoluteOf, Hend, (split_absoluteOf segs Hne Hall). cbn [negb].
  rewrite (normalizeSegments_rooted segs Hall), (join_first_char segs Hne Hall).
  change (Js.isEmpty (absoluteOf segs)) with false. cbv iota.
  unfold absoluteOf. now rewrite append_empty_r.
Qed.

(** Joining plain segments to a normalized absolute directory appends
    them. *)
Lemma join_absoluteOf (segs more : list string) :
  segs <> [] -> more <> [] -> Forall plainSegment segs -> Forall plainSegment more ->
  join (absoluteOf segs :: more) = absoluteOf (segs ++ more).
Proof.
  intros Hne Hmore Hall Hall'. unfold join.
  rewrite filter_cons.
  destruct (decide (Js.isEmpty (absoluteOf segs) = false)) as [_ | Hbad];
    [| exfalso; apply Hbad; reflexivity].
  rewrite (plain_not_empty more Hall').
  assert (E : Js.join "/" (absoluteOf segs :: more) = absoluteOf (segs ++ more)).
  { unfold absoluteOf. rewrite (join_app segs more Hne Hmore).
    destruct more as [| m more]; [congruence |].
    change (Js.join "/" (("/" +:+ Js.join "/" segs) :: m :: more))
      with (("/" +:+ Js.join "/" segs) +:+ String "/" (Js.join "/" (m :: more))).
    now rewrite append_assoc. }
  rewrite E. apply normalize_absoluteOf.
  - destruct segs; [congruence | discriminate].
  - now apply Forall_app.
Qed.

Lemma resolve_absoluteOf (cwd : string) (segs : list string) :
  segs <> [] -> Forall plainSegment segs ->
  resolve cwd (absoluteOf segs) = absoluteOf segs.
Proof.
  intros Hne Hall. unfold resolve.
  rewrite isAbsolute_absoluteOf.
  now rewrite (split_absoluteOf segs Hne Hall), (normalizeSegments_rooted segs Hall).
Qed.

Lemma segmentsOf_absoluteOf (segs : list string) :
  segs <> [] -> Forall plainSegment segs -> segmentsOf (absoluteOf segs) = segs.
Proof.
  intros Hne Hall. unfold segmentsOf. rewrite (split_absoluteOf segs Hne Hall).
  rewrite filter_cons. destruct (decide (Js.isEmpty EmptyString = false)); [discriminate |].
  now apply plain_not_empty.
Qed.

Lemma dropCommon_prefix (segs more : list string) :
  Forall plainSegment more ->
  dropCommon segs (segs ++ more) = ([], more).
Proof.
  intros Hmore. induction segs as [| seg segs IH]; simpl.
  - destruct more; reflexivity.
  - now rewrite String.eqb_refl.
Qed.

(** From a normalized absolute directory, the relative path of an
    entry below it is the path down to it. *)
Lemma relative_below (segs more : list string) :
  segs <> [] -> more <> [] -> Forall plainSegment segs -> Forall plainSegment more ->
  relative (absoluteOf segs) (absoluteOf segs) (absoluteOf (segs ++ more))
    = Js.join "/" more.
Proof.
  intros Hne Hmore Hall Hall'. unfold relative.
  assert (Hne' : segs ++ more <> []) by (destruct segs; [congruence | discriminate]).
  assert (Hboth : Forall plainSegment (segs ++ more)) by (now apply Forall_app).
  rewrite (resolve_absoluteOf _ segs Hne Hall), (resolve_absoluteOf _ _ Hne' Hboth).
  rewrite (segmentsOf_absoluteOf segs Hne Hall), (segmentsOf_absoluteOf _ Hne' Hboth).
  now rewrite (dropCommon_prefix segs more Hall').
Qed.

End PathFacts.

(** ** Facts about the string and number primitives *)

Module JsFacts.
Import PathFacts.

(** [trimStart] removes one white-space character after the other. *)
Lemma trimStart_eq (s : string) :
  Js.trimStart s
    = match Js.afterWhiteSpace s with
      | Some rest => Js.trimStart rest
      | None => s
      end.
Proof.
  destruct s as [| a s1]; [reflexivity |]. cbn [Js.trimStart Js.afterWhiteSpace].
  destruct (Js.isWhiteSpace a); [reflexivity |].
  destruct s1 as [| b s2]; [reflexivity |].
  destruct (Js.isWhiteSpace2 a b); [reflexivity |].
  destruct s2 as [| c s3]; [reflexivity |].
  destruct (Js.isWhiteSpace3 a b c); reflexivity.
Qed.

Lemma afterWhiteSpace_length (s rest : string) :
  Js.afterWhiteSpace s = Some rest -> (String.length rest < String.length s)%nat.
Proof.
  destruct s as [| a s1]; [discriminate |]. cbn [Js.afterWhiteSpace String.length].
  destruct (Js.isWhiteSpace a); [intros [= <-]; lia |].
  destruct s1 as [| b s2]; [discriminate |]. cbn [String.length].
  destruct (Js.isWhiteSpace2 a b); [intros [= <-]; lia |].
  destruct s2 as [| c s3]; [discriminate |]. cbn [String.length].
  destruct (Js.isWhiteSpace3 a b c); [intros [= <-]; lia | discriminate].
Qed.

Lemma afterWhiteSpace_app (s rest more : string) :
  Js.afterWhiteSpace s = Some rest -> Js.afterWhiteSpace (s +:+ more) = Some (rest +:+ more).
Proof.
  destruct s as [| a s1]; [discriminate |].
  rewrite append_cons. cbn [Js.afterWhiteSpace].
  destruct (Js.isWhiteSpace a); [now intros [= <-] |].
  destruct s1 as [| b s2]; [discriminate |].
  rewrite append_cons.
  destruct (Js.isWhiteSpace2 a b); [now intros [= <-] |].
  destruct s2 as [| c s3]; [discriminate |].
  rewrite append_cons.
  destruct (Js.isWhiteSpace3 a b c); [now intros [= <-] | discriminate].
Qed.

(** What [trimStart] returns does not start with white space. *)
Lemma trimStart_fixed (s : string) : Js.afterWhiteSpace (Js.trimStart s) = None.
Proof.
  remember (String.length s) as n eqn:Hn. revert s Hn.
  induction n as [n IH] using lt_wf_ind. intros s ->.
  rewrite trimStart_eq. destruct (Js.afterWhiteSpace s) as [rest |] eqn:E.
  - apply (IH (String.length rest)); [now apply afterWhiteSpace_length | reflexivity].
  - exact E.
Qed.

(** White space before a string is trimmed whatever the string is. *)
Lemma trimStart_app (s more : string) :
  Js.trimStart s = EmptyString -> Js.trimStart (s +:+ more) = Js.trimStart more.
Proof.
  remember (String.length s) as n eqn:Hn. revert s Hn.
  induction n as [n IH] using lt_wf_ind. intros s -> Hblank.
  rewrite trimStart_eq in Hblank.
  destruct (Js.afterWhiteSpace s) as [rest |] eqn:E.
  - rewrite (trimStart_eq (s +:+ more)), (afterWhiteSpace_app s rest more E).
    apply (IH (String.length rest)); [now apply afterWhiteSpace_length | reflexivity | exact Hblank].
  - subst s. now rewrite append_empty_l.
Qed.

(** [trimEnd] cuts a suffix of white space off. *)
Lemma trimEnd_split (s : string) :
  exists blank, s = Js.trimEnd s +:+ blank /\ Js.trimStart blank = EmptyString.
Proof.
  induction s as [| c s (blank & Hs & Hblank)].
  - now exists EmptyString.
  - cbn [Js.trimEnd]. destruct (Js.isEmpty (Js.trimStart (String c s))) eqn:E.
    + exists (String c s). split; [now rewrite append_empty_l |].
      now destruct (Js.trimStart (String c s)).
    + exists blank. split; [| exact Hblank]. rewrite append_cons. now rewrite <- Hs.
Qed.

Lemma trimEnd_idem (s : string) : Js.trimEnd (Js.trimEnd s) = Js.trimEnd s.
Proof.
  induction s as [| c s IH]; [reflexivity |]. cbn [Js.trimEnd].
  destruct (Js.isEmpty (Js.trimStart (String c s))) eqn:E; [reflexivity |].
  cbn [Js.trimEnd]. rewrite IH.
  destruct (Js.isEmpty (Js.trimStart (String c (Js.trimEnd s)))) eqn:E'; [| reflexivity].
  exfalso. destruct (trimEnd_split s) as (blank & Hs & Hblank).
  assert (Hall : Js.trimStart (String c (Js.trimEnd s)) = EmptyString)
    by (now destruct (Js.trimStart (String c (Js.trimEnd s)))).
  pose proof (trimStart_app _ blank Hall) as H.
  rewrite append_cons, <- Hs, Hblank in H. now rewrite H in E.
Qed.

(** Cutting the end of a string that does not start with white space
    leaves a string that does not start with white space. *)
Lemma trimEnd_keeps_start (s : string) :
  Js.afterWhiteSpace s = None -> Js.afterWhiteSpace (Js.trimEnd s) = None.
Proof.
  intros Hs.
  assert (Hcut : forall t, Js.trimEnd t = EmptyString \/
                   exists c t', t = String c t' /\ Js.trimEnd t = String c (Js.trimEnd t')).
  { intros [| c t']; [now left |]. cbn [Js.trimEnd].
    destruct (Js.isEmpty (Js.trimStart (String c t'))); [now left | right; eauto]. }
  destruct (Hcut s) as [-> | (a & s1 & -> & ->)]; [reflexivity |].
  simpl in Hs. simpl. destruct (Js.isWhiteSpace a); [discriminate |].
  destruct (Hcut s1) as [-> | (b & s2 & -> & ->)]; [reflexivity |].
  destruct (Js.isWhiteSpace2 a b); [discriminate |].
  destruct (Hcut s2) as [-> | (c & s3 & -> & ->)]; [reflexivity |].
  now destruct (Js.isWhiteSpace3 a b c).
Qed.

(** Trimming twice is trimming once. *)
Lemma trim_idem (s : string) : Js.trim (Js.trim s) = Js.trim s.
Proof.
  unfold Js.trim.
  assert (H : Js.trimStart (Js.trimEnd (Js.trimStart s)) = Js.trimEnd (Js.trimStart s)).
  { rewrite trimStart_eq.
    now rewrite (trimEnd_keeps_start _ (trimStart_fixed s)). }
  now rewrite H, trimEnd_idem.
Qed.

(** The white space of [trim] is that of the language: the no-break
    space (U+00A0), the line separator (U+2028) and the byte order mark
    (U+FEFF) go like the space and the line feed. *)
Lemma trim_unicode :
  let nbsp := String (ascii_of_nat 194) (String (ascii_of_nat 160) EmptyString) in
  let ls := String (ascii_of_nat 226) (String (ascii_of_nat 128)
              (String (ascii_of_nat 168) EmptyString)) in
  let bom := String (ascii_of_nat 239) (String (ascii_of_nat 187)
               (String (ascii_of_nat 191) EmptyString)) in
  Js.trim (bom +:+ nbsp +:+ " gho_abc" +:+ nbsp +:+ ls +:+ String (ascii_of_nat 10) EmptyString)
    = "gho_abc" /\
  Js.trim (nbsp +:+ ls) = EmptyString /\
  Js.parseInt (nbsp +:+ "42") = Js.Num 42.
Proof. vm_compute. repeat split. Qed.

(** [parseInt] gives doubles: beyond [2 ^ 53] the integer read is
    rounded, and beyond the largest double it is an infinity. *)
Lemma parseInt_rounds :
  Js.parseInt "9007199254740993" = Js.Num 9007199254740992 /\
  Js.parseInt "-9007199254740995" = Js.Num (-9007199254740996) /\
  Js.parseInt "1000000000000000000000" = Js.Num (10 ^ 21) /\
  Js.toNumber (2 ^ 1024 - 2 ^ 970 - 1) = Js.Num (2 ^ 1024 - 2 ^ 971) /\
  Js.toNumber (2 ^ 1024 - 2 ^ 970) = Js.Infinity false /\
  Js.toNumber (- 10 ^ 400) = Js.Infinity true.
Proof. vm_compute. repeat split. Qed.

(** [String(n)]: the digits in full up to [2 ^ 53], the shortest
    digits that give the number back beyond, and an exponent from
    [10 ^ 21] on. *)
Lemma stringOfNumber_forms :
  Js.stringOfNumber (Js.Num 42) = "42" /\
  Js.stringOfNumber (Js.Num (-7)) = "-7" /\
  Js.stringOfNumber (Js.Num (2 ^ 53 - 1)) = "9007199254740991" /\
  Js.stringOfNumber (Js.Num (2 ^ 64)) = "18446744073709552000" /\
  Js.stringOfNumber (Js.Num (2 ^ 69)) = "590295810358705700000" /\
  Js.stringOfNumber (Js.Num (10 ^ 21)) = "1e+21" /\
  Js.stringOfNumber (Js.Num (2 ^ 70)) = "1.1805916207174113e+21" /\
  Js.stringOfNumber (Js.Num (2 ^ 1024 - 2 ^ 971)) = "1.7976931348623157e+308" /\
  Js.stringOfNumber (Js.Infinity false) = "Infinity" /\
  Js.stringOfNumber Js.NaN = "NaN".
Proof. vm_compute. repeat split. Qed.

End JsFacts.

(** * Properties of the command line harness *)

Module CliFacts.
Import Cli.

(** ** Writers *)

Lemma alter_chunks_other (f : list string -> list string) (bs : list (list string))
    (i j : nat) :
  i <> j -> alter f i bs !! j = bs !! j.
Proof. intros Hne. now apply list_lookup_alter_ne. Qed.

(** A write through [w] emits one event on the stream [w] ends in,
    touches no array outside [w], and nothing else. *)
Lemma writeVia_frame (w : Writer) (arg : WriteArg) (p : Process) :
  env (writeVia w arg p) = env p /\
  cwd (writeVia w arg p) = cwd p /\
  stdoutWrite (writeVia w arg p) = stdoutWrite p /\
  stderrWrite (writeVia w arg p) = stderrWrite p /\
  files (writeVia w arg p) = files p /\
  length (buffers (writeVia w arg p)) = length (buffers p) /\
  trace (writeVia w arg p) = trace p ++ [Emitted (baseStream w) (textOf arg)] /\
  (forall c, idsBelow c w -> buffers (writeVia w arg p) !! c = buffers p !! c).
Proof.
  revert p. induction w as [s | chunks inner IH]; intros p; simpl.
  - repeat split; reflexivity.
  - destruct (IH (pushChunk chunks (textOf arg) p))
      as (He & Hc & Ho & Hr & Hf & Hl & Ht & Hb).
    rewrite He, Hc, Ho, Hr, Hf, Hl, Ht. simpl.
    repeat split; try reflexivity.
    + now rewrite length_alter.
    + intros c [Hlt Hin]. rewrite (Hb c Hin). simpl.
      apply alter_chunks_other. lia.
Qed.

Lemma idsBelow_mono (n m : nat) (w : Writer) :
  (n <= m)%nat -> idsBelow n w -> idsBelow m w.
Proof.
  intros Hle. induction w as [s | chunks inner IH]; simpl; [easy|].
  intros [Hlt Hin]. split; [lia | auto].
Qed.

(** A write through a capturing writer appends the text to its array. *)
Lemma writeVia_capturing (c : nat) (inner : Writer) (arg : WriteArg) (p : Process) :
  idsBelow c inner ->
  chunksOf c (writeVia (Capturing c inner) arg p) = chunksOf c p ++
    (if decide (c < length (buffers p))%nat then [textOf arg] else []).
Proof.
  intros Hin. unfold chunksOf. simpl.
  destruct (writeVia_frame inner arg (pushChunk c (textOf arg) p))
    as (_ & _ & _ & _ & _ & _ & _ & Hb).
  rewrite (Hb c Hin). simpl.
  rewrite list_lookup_alter. destruct (decide (c = c)) as [_|]; [|congruence].
  destruct (decide (c < length (buffers p))%nat) as [Hlt | Hge].
  - destruct (lookup_lt_is_Some_2 (buffers p) c Hlt) as [b Eb]. rewrite Eb. reflexivity.
  - rewrite (lookup_ge_None_2 (buffers p) c) by lia. simpl. reflexivity.
Qed.

(** ** Credentials *)

Lemma loadDotEnvIfExists_eq (w : World) (p : Process) :
  loadDotEnvIfExists w p = (Returns tt, afterDotenv w p).
Proof.
  unfold loadDotEnvIfExists, afterDotenv, bind, gets. cbn zeta.
  destruct (dotenvAt w (Path.resolve (cwd p) ".env")) as [[vars | err | err] |]; reflexivity.
Qed.

Lemma tokenFromGh_eq (w : World) (p : Process) :
  tokenFromGh w p =
    match sessionToken w with
    | Some token =>
        (Returns token, setEnv "GITHUB_TOKEN" token (record (Executed "gh auth token") p))
    | None => (Throws NoCredentialError, record (Executed "gh auth token") p)
    end.
Proof.
  unfold tokenFromGh, sessionToken, bind, modify. simpl.
  destruct (ghAuthToken w) as [out |]; [| reflexivity].
  simpl. destruct (Js.isEmpty (Js.trim out)); reflexivity.
Qed.

Lemma resolveGitHubToken_eq (w : World) (p : Process) :
  resolveGitHubToken w p =
    match getEnv "GITHUB_TOKEN" (ensureAction p) with
    | Some token => (Returns token, ensureAction p)
    | None =>
        match getEnv "GITHUB_TOKEN" (afterDotenv w (ensureAction p)) with
        | Some token => (Returns token, afterDotenv w (ensureAction p))
        | None => tokenFromGh w (afterDotenv w (ensureAction p))
        end
    end.
Proof.
  unfold resolveGitHubToken, ensureAction, bind, gets, modify, ret.
  destruct (getEnv "GITHUB_ACTION" p) as [action |].
  - destruct (getEnv "GITHUB_TOKEN" p) as [token |]; [reflexivity |].
    rewrite loadDotEnvIfExists_eq.
    destruct (getEnv "GITHUB_TOKEN" (afterDotenv w p)); reflexivity.
  - destruct (getEnv "GITHUB_TOKEN" (setEnv "GITHUB_ACTION" "local" p)) as [token |];
      [reflexivity |].
    rewrite loadDotEnvIfExists_eq.
    destruct (getEnv "GITHUB_TOKEN" (afterDotenv w (setEnv "GITHUB_ACTION" "local" p)));
      reflexivity.
Qed.

Lemma ensureAction_frame (p : Process) :
  cwd (ensureAction p) = cwd p /\
  stdoutWrite (ensureAction p) = stdoutWrite p /\
  stderrWrite (ensureAction p) = stderrWrite p /\
  buffers (ensureAction p) = buffers p /\
  files (ensureAction p) = files p /\
  trace (ensureAction p) = trace p /\
  (forall name, name <> "GITHUB_ACTION" -> env (ensureAction p) !! name = env p !! name).
Proof.
  unfold ensureAction. destruct (getEnv "GITHUB_ACTION" p); simpl;
    repeat split; try reflexivity.
  intros name Hne. now rewrite lookup_insert_ne.
Qed.

Lemma explicitToken_ensureAction (p : Process) :
  getEnv "GITHUB_TOKEN" (ensureAction p) = explicitToken p.
Proof.
  unfold explicitToken, getEnv.
  destruct (ensureAction_frame p) as (_ & _ & _ & _ & _ & _ & He).
  now rewrite He.
Qed.

(** Once the explicit token is missing, what the environment holds
    after [loadDotEnvIfExists] is the token of the file. *)
Lemma fileToken_afterDotenv (w : World) (p : Process) :
  explicitToken p = None ->
  getEnv "GITHUB_TOKEN" (afterDotenv w (ensureAction p)) = fileToken w p.
Proof.
  intros Hex. unfold fileToken, afterDotenv. cbn zeta.
  destruct (ensureAction_frame p) as (Hc & _ & _ & _ & _ & _ & He).
  rewrite Hc.
  destruct (dotenvAt w (Path.resolve (cwd p) ".env")) as [[vars | err | err] |].
  - unfold getEnv. simpl. f_equal.
    rewrite !lookup_union. now rewrite He.
  - unfold getEnv. simpl. fold (getEnv "GITHUB_TOKEN" (ensureAction p)).
    now rewrite explicitToken_ensureAction.
  - unfold getEnv.
    match goal with |- context [writeVia ?wr ?a ?q] =>
      destruct (writeVia_frame wr a q) as (Hev & _) end.
    rewrite Hev. simpl. fold (getEnv "GITHUB_TOKEN" (ensureAction p)).
    now rewrite explicitToken_ensureAction.
  - now rewrite explicitToken_ensureAction.
Qed.

Lemma afterDotenv_frame (w : World) (p : Process) :
  cwd (afterDotenv w p) = cwd p /\
  stdoutWrite (afterDotenv w p) = stdoutWrite p /\
  stderrWrite (afterDotenv w p) = stderrWrite p /\
  length (buffers (afterDotenv w p)) = length (buffers p) /\
  files (afterDotenv w p) = files p /\
  trace (afterDotenv w p) = trace p ++ dotenvEvents w p /\
  (forall name v, env p !! name = Some v -> env (afterDotenv w p) !! name = Some v).
Proof.
  unfold afterDotenv, dotenvEvents. cbn zeta.
  destruct (dotenvAt w (Path.resolve (cwd p) ".env")) as [[vars | err | err] |]; simpl.
  - repeat split; try reflexivity.
    intros name v Hv. now apply lookup_union_Some_l.
  - repeat split; auto.
  - match goal with |- context [writeVia ?wr ?a ?q] =>
      destruct (writeVia_frame wr a q) as (He & Hc & Ho & Hr & Hf & Hl & Ht & _) end.
    rewrite He, Hc, Ho, Hr, Hf, Hl, Ht. simpl.
    repeat split; auto. now rewrite <- app_assoc.
  - rewrite app_nil_r. repeat split; auto.
Qed.

Lemma getEnv_Some (name value : string) (p : Process) :
  getEnv name p = Some value -> env p !! name = Some value.
Proof.
  unfold getEnv, Js.truthyString. destruct (env p !! name) as [s |]; [| discriminate].
  destruct (Js.isEmpty s); [discriminate | auto].
Qed.

Lemma getEnv_lookup (name value : string) (p : Process) :
  getEnv name p = Some value <-> env p !! name = Some value /\ value <> EmptyString.
Proof.
  unfold getEnv, Js.truthyString. split.
  - destruct (env p !! name) as [s |]; [| discriminate].
    destruct s; simpl; [discriminate |]. intros [= <-]. split; [reflexivity | discriminate].
  - intros [-> Hne]. destruct value; [congruence | reflexivity].
Qed.

Lemma sessionToken_nonempty (w : World) (token : string) :
  sessionToken w = Some token -> token <> EmptyString.
Proof.
  unfold sessionToken, Js.truthyString. destruct (ghAuthToken w) as [out |]; [| discriminate].
  destruct (Js.trim out); simpl; [discriminate |]. intros [= <-]. discriminate.
Qed.

(** Line 21 leaves the flag set: to what it was, or to [local]. *)
Lemma ensureAction_flag (p : Process) :
  env (ensureAction p) !! "GITHUB_ACTION"
    = Some (default "local" (getEnv "GITHUB_ACTION" p)).
Proof.
  unfold ensureAction. destruct (getEnv "GITHUB_ACTION" p) as [a |] eqn:E; simpl.
  - now apply getEnv_Some.
  - now rewrite lookup_insert_eq.
Qed.

Lemma ensureAction_idem (p : Process) : ensureAction (ensureAction p) = ensureAction p.
Proof.
  unfold ensureAction at 1.
  assert (E : getEnv "GITHUB_ACTION" (ensureAction p)
              = Some (default "local" (getEnv "GITHUB_ACTION" p))).
  { apply getEnv_lookup. split; [apply ensureAction_flag |].
    destruct (getEnv "GITHUB_ACTION" p) as [a |] eqn:Ea; simpl; [| discriminate].
    now apply getEnv_lookup in Ea. }
  now rewrite E.
Qed.

(** With the flag and the token in the environment, a call changes
    nothing and runs nothing. *)
Lemma resolveGitHubToken_cached (w : World) (p : Process) (action token : string) :
  getEnv "GITHUB_ACTION" p = Some action ->
  getEnv "GITHUB_TOKEN" p = Some token ->
  resolveGitHubToken w p = (Returns token, p).
Proof.
  intros Ha Ht. rewrite resolveGitHubToken_eq.
  assert (E : ensureAction p = p) by (unfold ensureAction; now rewrite Ha).
  rewrite E. now rewrite Ht.
Qed.

(** What a call leaves in the state, whatever its outcome. *)
Lemma resolveGitHubToken_frame (w : World) (p : Process) :
  let p' := snd (resolveGitHubToken w p) in
  cwd p' = cwd p /\
  stdoutWrite p' = stdoutWrite p /\
  stderrWrite p' = stderrWrite p /\
  length (buffers p') = length (buffers p) /\
  files p' = files p /\
  env p' !! "GITHUB_ACTION" = Some (default "local" (getEnv "GITHUB_ACTION" p)).
Proof.
  rewrite resolveGitHubToken_eq.
  destruct (ensureAction_frame p) as (Hc & Ho & Hr & Hb & Hf & _ & _).
  pose proof (ensureAction_flag p) as Hflag.
  destruct (afterDotenv_frame w (ensureAction p)) as (Hc' & Ho' & Hr' & Hb' & Hf' & _ & He').
  destruct (getEnv "GITHUB_TOKEN" (ensureAction p)) as [token |]; simpl.
  { rewrite Hb. repeat split; auto. }
  destruct (getEnv "GITHUB_TOKEN" (afterDotenv w (ensureAction p))) as [token |]; simpl.
  { rewrite Hc', Ho', Hr', Hb', Hf', Hb. repeat split; auto. }
  rewrite tokenFromGh_eq. destruct (sessionToken w) as [token |]; simpl;
    rewrite Hc', Ho', Hr', Hb', Hf', Hb; repeat split; auto.
  rewrite lookup_insert_ne by discriminate. auto.
Qed.

(** The outcome of a call, by the first source that has a token, with
    what the call added to the trace. *)
Lemma resolveGitHubToken_cases (w : World) (p : Process) :
  let '(r, p') := resolveGitHubToken w p in
  match explicitToken p, fileToken w p, sessionToken w with
  | Some token, _, _ => r = Returns token /\ trace p' = trace p
  | None, Some token, _ => r = Returns token /\ trace p' = trace p ++ dotenvEvents w p
  | None, None, Some token =>
      r = Returns token /\
      trace p' = trace p ++ dotenvEvents w p ++ [Executed "gh auth token"]
  | None, None, None =>
      r = Throws NoCredentialError /\
      trace p' = trace p ++ dotenvEvents w p ++ [Executed "gh auth token"]
  end /\
  (forall token, r = Returns token -> explicitToken p' = Some token).
Proof.
  rewrite resolveGitHubToken_eq, explicitToken_ensureAction.
  destruct (ensureAction_frame p) as (Hc & Ho & Hr & Hb & Hf & Ht & He).
  destruct (explicitToken p) as [token |] eqn:Hex.
  { split; [split; [reflexivity | exact Ht] |].
    intros t [= <-]. now rewrite <- explicitToken_ensureAction in Hex. }
  rewrite (fileToken_afterDotenv w p Hex).
  destruct (afterDotenv_frame w (ensureAction p)) as (_ & _ & _ & _ & _ & Ht' & _).
  assert (Hw : dotenvEvents w (ensureAction p) = dotenvEvents w p)
    by (unfold dotenvEvents; now rewrite Hc, Hr).
  rewrite Hw, Ht in Ht'.
  destruct (fileToken w p) as [token |] eqn:Hfile.
  { split.
    - split; [reflexivity | exact Ht'].
    - intros t [= <-]. unfold explicitToken.
      now rewrite (fileToken_afterDotenv w p Hex). }
  rewrite tokenFromGh_eq.
  destruct (sessionToken w) as [token |] eqn:Hgh; simpl.
  - split; [split; [reflexivity |] |].
    + rewrite Ht'. now rewrite <- app_assoc.
    + intros t [= <-]. apply getEnv_lookup. simpl. split.
      * apply lookup_insert_eq.
      * now apply (sessionToken_nonempty w).
  - split; [split; [reflexivity |] | discriminate].
    rewrite Ht'. now rewrite <- app_assoc.
Qed.


(** C3: the explicit token of the environment comes first, then the
    token that the [.env] file defines, then the trimmed output of
    [gh auth token]; the first source that has a token gives the result
    and the later sources are not consulted (with a token in the
    environment nothing is loaded and nothing is run; with a token in
    the file no command is run). The file gives its token when the
    environment does not define [GITHUB_TOKEN]; when the environment
    defines it empty, the file is loaded but cannot set it, and the
    session command decides. A [.env] file that fails to load, whether
    [dotenv.config] returns the error or throws it, is not fatal: the
    session command is tried next. With no token anywhere the call
    throws the no-credential error; and a token that is returned is in
    [process.env.GITHUB_TOKEN] afterwards. *)
Theorem resolveGitHubToken_sources (w : World) (p : Process) :
  let '(r, p') := resolveGitHubToken w p in
  match explicitToken p, fileToken w p, sessionToken w with
  | Some token, _, _ => r = Returns token /\ trace p' = trace p
  | None, Some token, _ => r = Returns token /\ trace p' = trace p ++ dotenvEvents w p
  | None, None, Some token =>
      r = Returns token /\
      trace p' = trace p ++ dotenvEvents w p ++ [Executed "gh auth token"]
  | None, None, None =>
      r = Throws NoCredentialError /\
      trace p' = trace p ++ dotenvEvents w p ++ [Executed "gh auth token"]
  end /\
  (forall vars token,
     env p !! "GITHUB_TOKEN" = None ->
     dotenvAt w (Path.resolve (cwd p) ".env") = Some (DotenvParsed vars) ->
     vars !! "GITHUB_TOKEN" = Some token -> token <> EmptyString ->
     r = Returns token) /\
  (env p !! "GITHUB_TOKEN" = Some EmptyString ->
     r = match sessionToken w with
         | Some token => Returns token
         | None => Throws NoCredentialError
         end /\
     trace p' = trace p ++ dotenvEvents w p ++ [Executed "gh auth token"]) /\
  (forall err,
     explicitToken p = None ->
     dotenvAt w (Path.resolve (cwd p) ".env") = Some (DotenvFails err) \/
     dotenvAt w (Path.resolve (cwd p) ".env") = Some (DotenvThrows err) ->
     r = match sessionToken w with
         | Some token => Returns token
         | None => Throws NoCredentialError
         end /\
     trace p' = trace p ++ dotenvEvents w p ++ [Executed "gh auth token"]) /\
  (forall token, r = Returns token -> env p' !! "GITHUB_TOKEN" = Some token).
Proof.
  pose proof (resolveGitHubToken_cases w p) as H.
  destruct (resolveGitHubToken w p) as [r p']. destruct H as [Hcases Hcache].
  assert (Hlast : explicitToken p = None -> fileToken w p = None ->
            r = match sessionToken w with
                | Some token => Returns token
                | None => Throws NoCredentialError
                end /\
            trace p' = trace p ++ dotenvEvents w p ++ [Executed "gh auth token"]).
  { intros Hex Hfile. rewrite Hex, Hfile in Hcases.
    destruct (sessionToken w); exact Hcases. }
  split; [exact Hcases | split; [| split; [| split]]].
  - intros vars token Hnone Hparsed Hvar Hne.
    assert (Hex : explicitToken p = None)
      by (unfold explicitToken, getEnv; now rewrite Hnone).
    assert (Hfile : fileToken w p = Some token).
    { unfold fileToken. rewrite Hparsed.
      rewrite (lookup_union_r (env p) vars _ Hnone), Hvar.
      destruct token; [congruence | reflexivity]. }
    rewrite Hex, Hfile in Hcases. now destruct Hcases.
  - intros Hempty. apply Hlast.
    + unfold explicitToken, getEnv. now rewrite Hempty.
    + unfold fileToken.
      destruct (dotenvAt w (Path.resolve (cwd p) ".env")) as [[vars | err | err] |];
        try reflexivity.
      now rewrite (lookup_union_Some_l (env p) vars _ _ Hempty).
  - intros err Hex Hfails. apply Hlast; [exact Hex |].
    unfold fileToken. now destruct Hfails as [-> | ->].
  - intros token Hr. apply (getEnv_Some "GITHUB_TOKEN"). now apply Hcache.
Qed.

(** C4: after a call that returned a token, every later call, in
    whatever world, returns that token and leaves the state as it is:
    nothing is added to the trace, so [gh auth token] is not run again. *)
Theorem resolveGitHubToken_idempotent (w : World) (p p' : Process) (token : string) :
  resolveGitHubToken w p = (Returns token, p') ->
  forall later : list World,
    resolveEach later p' = (Returns (replicate (length later) token), p').
Proof.
  intros Hfirst.
  pose proof (resolveGitHubToken_cases w p) as Hsrc.
  pose proof (resolveGitHubToken_frame w p) as Hfr.
  rewrite Hfirst in Hsrc, Hfr. simpl in Hfr.
  destruct Hsrc as [_ Hcache]. specialize (Hcache token eq_refl).
  destruct Hfr as (_ & _ & _ & _ & _ & Hflag).
  assert (Haction : getEnv "GITHUB_ACTION" p'
                    = Some (default "local" (getEnv "GITHUB_ACTION" p))).
  { apply getEnv_lookup. split; [exact Hflag |].
    destruct (getEnv "GITHUB_ACTION" p) as [a |] eqn:Ea; simpl; [| discriminate].
    now apply getEnv_lookup in Ea. }
  intros later. induction later as [| w' later IH]; [reflexivity |].
  simpl. unfold bind.
  rewrite (resolveGitHubToken_cached w' p' _ token Haction Hcache).
  now rewrite IH.
Qed.

(** C10: line 21 runs first on every call. Whatever the outcome, the
    flag [GITHUB_ACTION] is set afterwards: to [local] when it was unset
    (or empty), also when the [.env] file defines it, since the file is
    read later; so a call that starts without the flag changes the
    environment, the call that throws the no-credential error included. *)
Theorem resolveGitHubToken_sets_flag (w : World) (p : Process) :
  let '(r, p') := resolveGitHubToken w p in
  resolveGitHubToken w p = resolveGitHubToken w (ensureAction p) /\
  env p' !! "GITHUB_ACTION" = Some (default "local" (getEnv "GITHUB_ACTION" p)) /\
  (getEnv "GITHUB_ACTION" p = None ->
     env p' !! "GITHUB_ACTION" = Some "local" /\ env p' <> env p) /\
  (getEnv "GITHUB_ACTION" p = None -> r = Throws NoCredentialError -> env p' <> env p).
Proof.
  pose proof (resolveGitHubToken_frame w p) as Hfr.
  destruct (resolveGitHubToken w p) as [r p'] eqn:Hrun. simpl in Hfr.
  destruct Hfr as (_ & _ & _ & _ & _ & Hflag).
  assert (Hchanged : getEnv "GITHUB_ACTION" p = None ->
                     env p' !! "GITHUB_ACTION" = Some "local" /\ env p' <> env p).
  { intros Hunset. rewrite Hunset in Hflag. simpl in Hflag. split; [exact Hflag |].
    intros Heq. rewrite Heq in Hflag.
    assert (Hset : getEnv "GITHUB_ACTION" p = Some "local")
      by (apply getEnv_lookup; split; [exact Hflag | discriminate]).
    congruence. }
  split; [| split; [exact Hflag | split; [exact Hchanged |]]].
  - rewrite <- Hrun. rewrite !resolveGitHubToken_eq. now rewrite ensureAction_idem.
  - intros Hunset _. now apply Hchanged.
Qed.

(** ** Arguments *)

Lemma isPathToken_spec (next : string) :
  isPathToken next = true <-> next <> EmptyString /\ Js.startsWith next "-" = false.
Proof.
  unfold isPathToken. destruct next as [| c rest].
  - simpl. split; [discriminate | intros [H _]; congruence].
  - change (Js.isEmpty (String c rest)) with false.
    destruct (Js.startsWith (String c rest) "-"); simpl; split.
    + discriminate.
    + intros [_ H]; discriminate.
    + intros _. split; [discriminate | reflexivity].
    + reflexivity.
Qed.

Lemma parseLoop_out_flag (flag : string) (args : Args) (rest : list string) :
  flag = "--out" \/ flag = "-out" ->
  parseLoop args (flag :: rest) =
    match rest with
    | next :: after =>
        if isPathToken next
        then parseLoop (setOut (OutPath next) args) after
        else parseLoop (setOut (OutFlag true) args) rest
    | [] => setOut (OutFlag true) args
    end.
Proof. intros [-> | ->]; destruct rest; reflexivity. Qed.

(** C6, as the code has it: when the loop of [parseArgs] is at [--out]
    (or [-out]), a next token that is not empty and does not start with
    [-] is consumed as the path; when the flag is the last token, or the
    next token is empty or starts with [-], [out] is [true] and the next
    token is left to the loop. *)
Theorem parseLoop_out (flag : string) (args : Args) :
  flag = "--out" \/ flag = "-out" ->
  parseLoop args [flag] = setOut (OutFlag true) args /\
  (forall next rest,
     next <> EmptyString -> Js.startsWith next "-" = false ->
     parseLoop args (flag :: next :: rest) = parseLoop (setOut (OutPath next) args) rest) /\
  (forall next rest,
     next = EmptyString \/ Js.startsWith next "-" = true ->
     parseLoop args (flag :: next :: rest)
       = parseLoop (setOut (OutFlag true) args) (next :: rest)).
Proof.
  intros Hflag. split; [| split].
  - now rewrite (parseLoop_out_flag flag args [] Hflag).
  - intros next rest Hne Hdash. rewrite (parseLoop_out_flag flag args _ Hflag).
    assert (E : isPathToken next = true) by (apply isPathToken_spec; auto).
    now rewrite E.
  - intros next rest Hnot. rewrite (parseLoop_out_flag flag args _ Hflag).
    destruct (isPathToken next) eqn:E; [| reflexivity].
    apply isPathToken_spec in E. destruct E as [Hne Hdash].
    destruct Hnot as [-> | Hd]; congruence.
Qed.

Lemma parseLoop_out_witness :
  args_out (parseArgs ["--pr"; "42"; "--out"]) = Some (OutFlag true) /\
  parseArgs ["--out"; "review.txt"; "--dry-run"]
    = parseLoop (setOut (OutPath "review.txt") noArgs) ["--dry-run"] /\
  parseArgs ["-out"; "--dry-run"; "x"]
    = parseLoop (setOut (OutFlag true) noArgs) ["--dry-run"; "x"].
Proof.
  split; [| split].
  - cbn. exact (f_equal args_out
      (proj1 (parseLoop_out "--out" (setPr (Js.Num 42) noArgs) (or_introl eq_refl)))).
  - refine (proj1 (proj2 (parseLoop_out "--out" noArgs (or_introl eq_refl)))
              "review.txt" ["--dry-run"] _ eq_refl).
    discriminate.
  - exact (proj2 (proj2 (parseLoop_out "-out" noArgs (or_intror eq_refl)))
             "--dry-run" ["x"] (or_intror eq_refl)).
Defined.

Example parseArgs_out_then_empty_token :
  parseArgs ["--pr"; "42"; "--out"; EmptyString]
    = pushPositional EmptyString (setOut (OutFlag true) (setPr (Js.Num 42) noArgs)).
Proof. reflexivity. Qed.

Example parseArgs_review_with_transcript :
  parseArgs ["--pr"; "42"; "--dry-run"; "--out"]
    = setOut (OutFlag true) (setDryRun (setPr (Js.Num 42) noArgs)).
Proof. reflexivity. Qed.

(** C6 as stated fails: an empty next token does not start with [-],
    and yet it is not consumed as the path. *)
Lemma parseLoop_out_empty_token :
  ~ (forall args next rest,
       Js.startsWith next "-" = false ->
       parseLoop args ("--out" :: next :: rest)
         = parseLoop (setOut (OutPath next) args) rest).
Proof.
  intros claim. specialize (claim noArgs EmptyString [] eq_refl).
  discriminate claim.
Qed.

(** ** Listing *)

Lemma consoleLog_eq (line : string) (p : Process) :
  consoleLog line p = (Returns tt, writeVia (stdoutWrite p) (Text (line +:+ newline)) p).
Proof. reflexivity. Qed.

Lemma forEach_printed (prs : list PullRequest) (p : Process) :
  let '(r, p') := forEach prs (fun pr => consoleLog (prLine pr)) p in
  r = Returns tt /\
  env p' = env p /\ cwd p' = cwd p /\ files p' = files p /\
  stdoutWrite p' = stdoutWrite p /\ stderrWrite p' = stderrWrite p /\
  trace p' = trace p ++ map (printedLine p) prs.
Proof.
  revert p. induction prs as [| pr prs IH]; intros p; simpl.
  - rewrite app_nil_r. repeat split; reflexivity.
  - unfold bind. rewrite consoleLog_eq.
    destruct (writeVia_frame (stdoutWrite p) (Text (prLine pr +:+ newline)) p)
      as (He & Hc & Ho & Hr & Hf & _ & Ht & _).
    specialize (IH (writeVia (stdoutWrite p) (Text (prLine pr +:+ newline)) p)).
    destruct (forEach prs _ _) as [r p'].
    destruct IH as (-> & He' & Hc' & Hf' & Ho' & Hr' & Ht').
    rewrite He', Hc', Hf', Ho', Hr', Ht', He, Hc, Ho, Hr, Hf, Ht.
    repeat split; try reflexivity.
    rewrite <- app_assoc. simpl. unfold printedLine. now rewrite Ho.
Qed.

Lemma listPRs_eq (w : World) (owner repo : option string) (state : string)
    (limit : Js.number) (p p1 : Process) (token : string) (all : list PullRequest) :
  resolveGitHubToken w p = (Returns token, p1) ->
  paginatePulls w token (getEnv "GITHUB_API_URL" p1) owner repo state = Returns all ->
  listPRs w owner repo state limit p =
    forEach (sliceTo all limit) (fun pr => consoleLog (prLine pr))
      (record (Paginated token (getEnv "GITHUB_API_URL" p1) owner repo state) p1).
Proof.
  intros Hres Hpage. unfold listPRs, bind at 1. rewrite Hres.
  unfold bind at 1, gets. unfold bind at 1, paginate, bind at 1, modify.
  cbn [env record]. now rewrite Hpage.
Qed.

Lemma slice0_take {A} (l : list A) (n : Z) :
  0 <= n -> Js.slice0 l n = take (Z.to_nat n) l.
Proof.
  intros Hn. unfold Js.slice0.
  destruct (n <? 0) eqn:E; [apply Z.ltb_lt in E; lia |].
  destruct (Z.le_gt_cases n (Z.of_nat (length l))) as [Hle | Hgt].
  - now rewrite Z.min_l.
  - rewrite Z.min_r by lia. rewrite Nat2Z.id.
    rewrite !take_ge; [reflexivity | lia | lia].
Qed.

(** The listing, once the token is resolved and the platform has
    answered: one line per pull request of the slice, in the order of
    the answer. *)
Lemma listPRs_trace (w : World) (owner repo : option string) (state : string)
    (limit : Js.number) (p p1 : Process) (token : string) (all : list PullRequest) :
  resolveGitHubToken w p = (Returns token, p1) ->
  paginatePulls w token (getEnv "GITHUB_API_URL" p1) owner repo state = Returns all ->
  let '(r, p') := listPRs w owner repo state limit p in
  r = Returns tt /\
  trace p' = trace p1
    ++ Paginated token (getEnv "GITHUB_API_URL" p1) owner repo state
    :: map (printedLine p) (sliceTo all limit).
Proof.
  intros Hres Hpage. rewrite (listPRs_eq _ _ _ _ _ _ _ _ _ Hres Hpage).
  pose proof (forEach_printed (sliceTo all limit)
    (record (Paginated token (getEnv "GITHUB_API_URL" p1) owner repo state) p1)) as H.
  destruct (forEach _ _ _) as [r p'].
  destruct H as (-> & _ & _ & _ & _ & _ & Ht). split; [reflexivity |].
  rewrite Ht. simpl. rewrite <- app_assoc. simpl.
  pose proof (resolveGitHubToken_frame w p) as Hfr. rewrite Hres in Hfr. simpl in Hfr.
  destruct Hfr as (_ & Ho & _). unfold printedLine. simpl. now rewrite Ho.
Qed.

Lemma main_listing (w : World) (argv : list string) (p : Process) :
  args_listPrs (parseArgs argv) = true ->
  main w argv p =
    listPRs w (fst (repositoryOf (parseArgs argv) p)) (snd (repositoryOf (parseArgs argv) p))
      (orDefault "open" (args_state (parseArgs argv)))
      (numberOr (args_limit (parseArgs argv)) 10) p.
Proof.
  intros Hlist. unfold main, bind, gets.
  destruct (repositoryOf (parseArgs argv) p) as [owner repo]. now rewrite Hlist.
Qed.

Lemma main_listing_prints (w : World) (argv : list string) (p p1 : Process)
    (token : string) (all : list PullRequest) :
  args_listPrs (parseArgs argv) = true ->
  resolveGitHubToken w p = (Returns token, p1) ->
  paginatePulls w token (getEnv "GITHUB_API_URL" p1)
    (fst (repositoryOf (parseArgs argv) p)) (snd (repositoryOf (parseArgs argv) p))
    (orDefault "open" (args_state (parseArgs argv))) = Returns all ->
  listingPrints w argv p p1 token
    (sliceTo all (numberOr (args_limit (parseArgs argv)) 10)).
Proof.
  intros Hlist Hres Hpage. unfold listingPrints.
  rewrite (main_listing w argv p Hlist).
  pose proof (listPRs_trace w _ _ _ (numberOr (args_limit (parseArgs argv)) 10)
                p p1 token all Hres Hpage) as H.
  destruct (listPRs _ _ _ _ _ _) as [r p'].
  destruct (repositoryOf (parseArgs argv) p) as [owner repo]. exact H.
Qed.

(** C7, as the code has it: the listing prints one line per pull
    request, with its number, its title and the handle of its author,
    in the order of the platform, for the first [n] pull requests (all
    of them when there are fewer) when [--limit] gives a positive
    number [n], and for the first 10 when [--limit] is absent, is 0 or
    gives no number; and with [--list-prs --state open --limit 2] and
    five open pull requests exactly the lines of the first two are
    printed, in that order. *)
Theorem listing_prints_limit (w : World) (argv : list string) (p p1 : Process)
    (token : string) (all : list PullRequest) :
  args_listPrs (parseArgs argv) = true ->
  resolveGitHubToken w p = (Returns token, p1) ->
  paginatePulls w token (getEnv "GITHUB_API_URL" p1)
    (fst (repositoryOf (parseArgs argv) p)) (snd (repositoryOf (parseArgs argv) p))
    (orDefault "open" (args_state (parseArgs argv))) = Returns all ->
  (forall n, args_limit (parseArgs argv) = Some (Js.Num n) -> 0 < n ->
     listingPrints w argv p p1 token (take (Z.to_nat n) all) /\
     length (take (Z.to_nat n) all) = Nat.min (Z.to_nat n) (length all)) /\
  (args_limit (parseArgs argv) = None \/
   args_limit (parseArgs argv) = Some Js.NaN \/
   args_limit (parseArgs argv) = Some (Js.Num 0) ->
     listingPrints w argv p p1 token (take 10 all)) /\
  (forall pr,
     printedLine p pr
       = Emitted (baseStream (stdoutWrite p))
           ("#" +:+ Js.stringOfInt (number pr) +:+ " " +:+ title pr
              +:+ " by @" +:+ Js.template (user pr) +:+ newline)) /\
  (argv = ["--list-prs"; "--state"; "open"; "--limit"; "2"] ->
   forall pr1 pr2 pr3 pr4 pr5,
     all = [pr1; pr2; pr3; pr4; pr5] ->
     listingPrints w argv p p1 token [pr1; pr2]).
Proof.
  intros Hlist Hres Hpage.
  pose proof (main_listing_prints w argv p p1 token all Hlist Hres Hpage) as H.
  split; [| split; [| split]].
  - intros n Hn Hpos. rewrite Hn in H. simpl in H.
    assert (E : (n =? 0) = false) by (apply Z.eqb_neq; lia).
    rewrite E in H. simpl in H. rewrite (slice0_take all n) in H by lia.
    split; [exact H | apply length_take].
  - intros Hdefault.
    assert (E : numberOr (args_limit (parseArgs argv)) 10 = Js.Num 10)
      by (destruct Hdefault as [-> | [-> | ->]]; reflexivity).
    rewrite E in H. simpl in H. rewrite (slice0_take all 10) in H by lia. exact H.
  - intros pr. unfold printedLine, prLine. now rewrite !PathFacts.append_assoc.
  - intros -> pr1 pr2 pr3 pr4 pr5 ->. exact H.
Qed.

(** C7 as stated fails: with [--limit 0] the lines of all five pull
    requests are printed, not none. *)
Lemma listing_ignores_zero_limit :
  ~ (forall w argv p p1 token all n,
       args_listPrs (parseArgs argv) = true ->
       resolveGitHubToken w p = (Returns token, p1) ->
       paginatePulls w token (getEnv "GITHUB_API_URL" p1)
         (fst (repositoryOf (parseArgs argv) p)) (snd (repositoryOf (parseArgs argv) p))
         (orDefault "open" (args_state (parseArgs argv))) = Returns all ->
       args_limit (parseArgs argv) = Some (Js.Num n) -> 0 <= n ->
       listingPrints w argv p p1 token (take (Z.to_nat n) all)).
Proof.
  intros claim.
  pose (p := freshProcess "/work" {["GITHUB_TOKEN" := "ghp_xyz"]}).
  specialize (claim sessionWorld ["--list-prs"; "--limit"; "0"] p
                (snd (resolveGitHubToken sessionWorld p)) "ghp_xyz" fivePulls 0
                eq_refl eq_refl eq_refl eq_refl ltac:(lia)).
  vm_compute in claim. destruct claim as [_ claim]. discriminate claim.
Qed.

Example listing_with_zero_limit :
  listingPrints sessionWorld ["--list-prs"; "--limit"; "0"]
    (freshProcess "/work" {["GITHUB_TOKEN" := "ghp_xyz"]})
    (snd (resolveGitHubToken sessionWorld
            (freshProcess "/work" {["GITHUB_TOKEN" := "ghp_xyz"]})))
    "ghp_xyz" fivePulls.
Proof. vm_compute. split; reflexivity. Qed.

(** ** The review flow *)

Lemma invocations_app (a b : list Event) :
  invocations (a ++ b) = invocations a ++ invocations b.
Proof.
  induction a as [| e a IH]; [reflexivity |].
  destruct e; simpl; now rewrite IH.
Qed.

Lemma streamWrite_eq (s : Stream) (arg : WriteArg) (p : Process) :
  streamWrite s arg p = (Returns tt, writeVia (writerOf s p) arg p).
Proof. reflexivity. Qed.

Lemma writerOf_frame (s : Stream) (p q : Process) :
  stdoutWrite q = stdoutWrite p -> stderrWrite q = stderrWrite p ->
  writerOf s q = writerOf s p.
Proof. intros Ho Hr. destruct s; simpl; auto. Qed.

(** The writes of the collaborator: one event each on the real stream,
    in order, and nothing else than arrays touched. *)
Lemma forEach_writes (ws : list (Stream * WriteArg)) (p : Process) :
  let '(r, p') := forEach ws (fun '(s, arg) => streamWrite s arg) p in
  r = Returns tt /\
  env p' = env p /\ cwd p' = cwd p /\ files p' = files p /\
  stdoutWrite p' = stdoutWrite p /\ stderrWrite p' = stderrWrite p /\
  length (buffers p') = length (buffers p) /\
  trace p' = trace p ++ map (passedThrough p) ws.
Proof.
  revert p. induction ws as [| [s arg] ws IH]; intros p; simpl.
  - rewrite app_nil_r. repeat split; reflexivity.
  - unfold bind. rewrite streamWrite_eq.
    destruct (writeVia_frame (writerOf s p) arg p) as (He & Hc & Ho & Hr & Hf & Hl & Ht & _).
    specialize (IH (writeVia (writerOf s p) arg p)).
    destruct (forEach ws _ _) as [r p'].
    destruct IH as (-> & He' & Hc' & Hf' & Ho' & Hr' & Hl' & Ht').
    rewrite He', Hc', Hf', Ho', Hr', Hl', Ht', He, Hc, Ho, Hr, Hf, Hl, Ht.
    repeat split; try reflexivity.
    rewrite <- app_assoc. simpl. do 2 f_equal.
    apply map_ext. intros [s' arg']. unfold passedThrough. simpl.
    now rewrite (writerOf_frame s' p _ Ho Hr).
Qed.

(** While both streams are captured on the array [c], that array
    receives the text of every write, in order. *)
Lemma forEach_writes_captured (ws : list (Stream * WriteArg)) (p : Process)
    (c : nat) (o1 o2 : Writer) :
  stdoutWrite p = Capturing c o1 -> stderrWrite p = Capturing c o2 ->
  idsBelow c o1 -> idsBelow c o2 -> (c < length (buffers p))%nat ->
  chunksOf c (snd (forEach ws (fun '(s, arg) => streamWrite s arg) p))
    = chunksOf c p ++ map (fun write => textOf (snd write)) ws.
Proof.
  revert p. induction ws as [| [s arg] ws IH]; intros p Ho Hr H1 H2 Hlt; simpl.
  - now rewrite app_nil_r.
  - unfold bind. rewrite streamWrite_eq.
    destruct (writeVia_frame (writerOf s p) arg p) as (_ & _ & Ho' & Hr' & _ & Hl & _ & _).
    specialize (IH (writeVia (writerOf s p) arg p)).
    rewrite Ho', Hr', Hl in IH. specialize (IH Ho Hr H1 H2 Hlt).
    destruct (forEach ws _ _) as [r p'] eqn:E. simpl in IH |- *. rewrite IH.
    assert (Hgrow : chunksOf c (writeVia (writerOf s p) arg p) = chunksOf c p ++ [textOf arg]).
    { destruct s; simpl; [rewrite Ho | rewrite Hr];
        rewrite writeVia_capturing by assumption;
        now destruct (decide (c < length (buffers p))%nat). }
    rewrite Hgrow. now rewrite <- app_assoc.
Qed.

Lemma runReview_eq (w : World) (p : Process) :
  runReview w p =
    (match rejection (handlePullRequest w (env p)) with
     | Some reason => Throws (Rejection reason)
     | None => Returns tt
     end,
     snd (forEach (writes (handlePullRequest w (env p)))
            (fun '(s, arg) => streamWrite s arg) (record (ReviewInvoked (env p)) p))).
Proof.
  unfold runReview, bind, gets, modify.
  pose proof (forEach_writes (writes (handlePullRequest w (env p)))
                (record (ReviewInvoked (env p)) p)) as H.
  destruct (forEach _ _ _) as [r p']. destruct H as (-> & _).
  simpl. destruct (rejection (handlePullRequest w (env p))); reflexivity.
Qed.

(** The release, when the file system accepts the directory and the
    file. *)
Lemma restore_eq (w : World) (o1 o2 : Writer) (outPath : string) (c : nat) (p : Process) :
  mkdirFails w (Path.dirname outPath) = false ->
  writeFileFails w outPath = false ->
  let content := Js.join EmptyString (chunksOf c p) in
  let '(r, p') := restore w o1 o2 outPath c p in
  r = Returns tt /\
  env p' = env p /\ cwd p' = cwd p /\
  stdoutWrite p' = o1 /\ stderrWrite p' = o2 /\
  files p' = <[outPath := content]> (files p) /\
  trace p' = trace p ++ released (cwd p) o1 outPath content.
Proof.
  intros Hmk Hwr. unfold restore, bind, modify, gets, mkdirSync, writeFileSync.
  rewrite Hmk, Hwr. cbn -[Path.dirname Path.relative Js.join writeVia].
  match goal with |- context [writeVia o1 ?a ?q] =>
    destruct (writeVia_frame o1 a q) as (He & Hc & Ho & Hr & Hf & _ & Ht & _) end.
  rewrite He, Hc, Ho, Hr, Hf, Ht. cbn -[Path.dirname Path.relative Js.join].
  repeat split; try reflexivity.
  unfold released. rewrite <- !app_assoc. reflexivity.
Qed.

(** Whatever the file system does, a release restores the two writers
    and invokes no review. *)
Lemma restore_always (w : World) (o1 o2 : Writer) (outPath : string) (c : nat) (p : Process) :
  let p' := snd (restore w o1 o2 outPath c p) in
  stdoutWrite p' = o1 /\ stderrWrite p' = o2 /\ env p' = env p /\
  invocations (trace p') = invocations (trace p).
Proof.
  unfold restore, bind, modify, gets, mkdirSync, writeFileSync, throw.
  destruct (mkdirFails w (Path.dirname outPath));
    cbn -[Path.dirname Path.relative Js.join writeVia]; [repeat split; reflexivity |].
  destruct (writeFileFails w outPath);
    cbn -[Path.dirname Path.relative Js.join writeVia].
  { rewrite invocations_app. simpl. rewrite app_nil_r. repeat split; reflexivity. }
  match goal with |- context [writeVia o1 ?a ?q] =>
    destruct (writeVia_frame o1 a q) as (He & Hc & Ho & Hr & Hf & _ & Ht & _) end.
  rewrite He, Ho, Hr, Ht. cbn -[Path.dirname Path.relative Js.join].
  rewrite !invocations_app. simpl. rewrite !app_nil_r. repeat split; reflexivity.
Qed.

Lemma reviewPR_eq (w : World) (prNumber : Js.number) (dryRun : bool)
    (owner repo : option string) (out : option OutArg) (p : Process) :
  reviewPR w prNumber dryRun owner repo out p =
    match resolveGitHubToken w p with
    | (Throws e, p1) => (Throws e, p1)
    | (Returns _, p1) =>
        let p2 := withEnv (reviewEnv prNumber dryRun owner repo) p1 in
        if outTruthy out then
          let c := length (buffers p2) in
          tryFinally (runReview w)
            (restore w (stdoutWrite p2) (stderrWrite p2) (outputPath (cwd p2) prNumber out) c)
            (withWriters (Capturing c (stdoutWrite p2)) (Capturing c (stderrWrite p2))
               (withBuffers (fun b => b ++ [[]]) p2))
        else tryFinally (runReview w) (ret tt) p2
    end.
Proof.
  unfold reviewPR, bind at 1.
  destruct (resolveGitHubToken w p) as [[token | e] p1]; [| reflexivity].
  unfold beginCapture, bind, modify, ret.
  destruct dryRun; destruct (outTruthy out); reflexivity.
Qed.

Lemma reviewEnv_debug (prNumber : Js.number) (dryRun : bool) (owner repo : option string)
    (e : gmap string string) :
  reviewEnv prNumber dryRun owner repo e !! "DEBUG" = Some "1".
Proof.
  unfold reviewEnv. destruct dryRun;
    repeat (rewrite lookup_insert_ne by discriminate); apply lookup_insert_eq.
Qed.

Lemma invocations_passedThrough (p : Process) (ws : list (Stream * WriteArg)) :
  invocations (map (passedThrough p) ws) = [].
Proof. induction ws as [| write ws IH]; [reflexivity | exact IH]. Qed.

Lemma resolveGitHubToken_invocations (w : World) (p : Process) :
  invocations (trace (snd (resolveGitHubToken w p))) = invocations (trace p).
Proof.
  pose proof (resolveGitHubToken_cases w p) as H.
  destruct (resolveGitHubToken w p) as [r p']. simpl. destruct H as [H _].
  assert (Hwarn : invocations (dotenvEvents w p) = []).
  { unfold dotenvEvents. cbn zeta.
    destruct (dotenvAt w (Path.resolve (cwd p) ".env")) as [[vars | err | err] |]; reflexivity. }
  destruct (explicitToken p); [destruct H as [_ ->]; reflexivity |].
  destruct (fileToken w p);
    [destruct H as [_ ->]; rewrite invocations_app, Hwarn; apply app_nil_r |].
  destruct (sessionToken w); destruct H as [_ ->];
    rewrite !invocations_app, Hwarn; simpl; now rewrite app_nil_r.
Qed.

Lemma runReview_frame (w : World) (p : Process) :
  let p' := snd (runReview w p) in
  env p' = env p /\ cwd p' = cwd p /\ files p' = files p /\
  stdoutWrite p' = stdoutWrite p /\ stderrWrite p' = stderrWrite p /\
  length (buffers p') = length (buffers p) /\
  trace p' = trace p ++ ReviewInvoked (env p)
               :: map (passedThrough p) (writes (handlePullRequest w (env p))).
Proof.
  rewrite runReview_eq. simpl.
  pose proof (forEach_writes (writes (handlePullRequest w (env p)))
                (record (ReviewInvoked (env p)) p)) as H.
  destruct (forEach _ _ _) as [r p']. simpl.
  destruct H as (_ & He & Hc & Hf & Ho & Hr & Hl & Ht).
  repeat split; auto. rewrite Ht. simpl. now rewrite <- app_assoc.
Qed.

(** C9: [reviewPR] sets [DEBUG] to [1] whatever its arguments and the
    environment before: once the token is resolved, the review
    collaborator is invoked exactly once, and the environment it is
    invoked in is that of lines 74 to 82, in which [DEBUG] is [1]; when no
    token is found it is not invoked at all. *)
Theorem reviewPR_debug_mode (w : World) (prNumber : Js.number) (dryRun : bool)
    (owner repo : option string) (out : option OutArg) (p : Process) :
  let '(r, p') := reviewPR w prNumber dryRun owner repo out p in
  match resolveGitHubToken w p with
  | (Returns _, p1) =>
      invocations (trace p')
        = invocations (trace p) ++ [reviewEnv prNumber dryRun owner repo (env p1)] /\
      reviewEnv prNumber dryRun owner repo (env p1) !! "DEBUG" = Some "1" /\
      env p' !! "DEBUG" = Some "1"
  | (Throws e, p1) =>
      invocations (trace p') = invocations (trace p) /\ r = Throws e
  end.
Proof.
  rewrite reviewPR_eq.
  pose proof (resolveGitHubToken_invocations w p) as Hinv.
  destruct (resolveGitHubToken w p) as [[token | e] p1]; simpl in Hinv; [| now split].
  set (seen := reviewEnv prNumber dryRun owner repo (env p1)).
  cbn zeta. destruct (outTruthy out).
  - unfold tryFinally.
    match goal with |- context [runReview w ?q] =>
      pose proof (runReview_frame w q) as Hrun; destruct (runReview w q) as [rr p4] end.
    simpl in Hrun. destruct Hrun as (He & _ & _ & _ & _ & _ & Ht).
    match goal with |- context [restore w ?a ?b ?c ?d p4] =>
      pose proof (restore_always w a b c d p4) as Hrel;
      destruct (restore w a b c d p4) as [rc p5] end.
    simpl in Hrel. destruct Hrel as (_ & _ & He5 & Hi5).
    assert (Hgoal : invocations (trace p5) = invocations (trace p) ++ [seen] /\
                    seen !! "DEBUG" = Some "1" /\ env p5 !! "DEBUG" = Some "1").
    { rewrite Hi5, Ht, He5, He, invocations_app. simpl.
      rewrite invocations_passedThrough, Hinv.
      repeat split; auto; apply reviewEnv_debug. }
    destruct rc; exact Hgoal.
  - unfold tryFinally, ret.
    match goal with |- context [runReview w ?q] =>
      pose proof (runReview_frame w q) as Hrun; destruct (runReview w q) as [rr p4] end.
    simpl in Hrun. destruct Hrun as (He & _ & _ & _ & _ & _ & Ht).
    rewrite Ht, He, invocations_app. simpl. rewrite invocations_passedThrough, Hinv.
    repeat split; auto; apply reviewEnv_debug.
Qed.

(** The review flow with a transcript, once the token is resolved and
    when the file system accepts the directory and the file. *)
Lemma reviewPR_capture (w : World) (prNumber : Js.number) (dryRun : bool)
    (owner repo : option string) (out : option OutArg) (p p1 : Process) (token : string) :
  wellFormed p ->
  outTruthy out = true ->
  resolveGitHubToken w p = (Returns token, p1) ->
  mkdirFails w (Path.dirname (outputPath (cwd p) prNumber out)) = false ->
  writeFileFails w (outputPath (cwd p) prNumber out) = false ->
  let outPath := outputPath (cwd p) prNumber out in
  let seen := reviewEnv prNumber dryRun owner repo (env p1) in
  let review := handlePullRequest w seen in
  let '(r, p') := reviewPR w prNumber dryRun owner repo out p in
  r = match rejection review with
      | Some reason => Throws (Rejection reason)
      | None => Returns tt
      end /\
  stdoutWrite p' = stdoutWrite p /\ stderrWrite p' = stderrWrite p /\
  files p' = <[outPath := transcriptOf (writes review)]> (files p) /\
  trace p' = trace p1 ++ ReviewInvoked seen :: map (passedThrough p) (writes review)
               ++ released (cwd p) (stdoutWrite p) outPath (transcriptOf (writes review)).
Proof.
  intros [Hwf1 Hwf2] Hout Hres Hmk Hwr. cbn zeta.
  rewrite reviewPR_eq, Hres, Hout. cbn zeta.
  pose proof (resolveGitHubToken_frame w p) as Hfr. rewrite Hres in Hfr. simpl in Hfr.
  destruct Hfr as (Hc & Ho & Hr & Hl & Hf & _).
  cbn [withEnv cwd stdoutWrite stderrWrite buffers].
  rewrite Hc, Ho, Hr, Hl.
  set (c := length (buffers p)).
  set (seen := reviewEnv prNumber dryRun owner repo (env p1)).
  set (outPath := outputPath (cwd p) prNumber out).
  set (p3 := withWriters _ _ _).
  unfold tryFinally. rewrite runReview_eq.
  change (env p3) with seen.
  set (q := record (ReviewInvoked seen) p3).
  set (ws := writes (handlePullRequest w seen)).
  pose proof (forEach_writes ws q) as Hws.
  assert (Hcap : chunksOf c (snd (forEach ws (fun '(s, arg) => streamWrite s arg) q))
                 = chunksOf c q ++ map (fun write => textOf (snd write)) ws).
  { apply (forEach_writes_captured ws q c (stdoutWrite p) (stderrWrite p));
      try reflexivity; try assumption.
    subst q p3. simpl. rewrite length_app, Hl. simpl. lia. }
  destruct (forEach ws _ q) as [rw p4]. simpl in Hcap.
  destruct Hws as (_ & He4 & Hc4 & Hf4 & Ho4 & Hr4 & _ & Ht4).
  assert (Hempty : chunksOf c q = []).
  { subst q p3. unfold chunksOf. simpl. unfold c. rewrite <- Hl.
    now rewrite lookup_app_r, Nat.sub_diag by lia. }
  rewrite Hempty in Hcap. simpl in Hcap.
  pose proof (restore_eq w (stdoutWrite p) (stderrWrite p) outPath c p4 Hmk Hwr) as Hrel.
  cbn zeta in Hrel. cbn [snd].
  destruct (restore w (stdoutWrite p) (stderrWrite p) outPath c p4) as [rc p5].
  destruct Hrel as (-> & _ & _ & Ho5 & Hr5 & Hf5 & Ht5).
  rewrite Ho5, Hr5, Hf5, Ht5, Hf4, Ht4, Hc4, Hcap.
  subst q p3. simpl. rewrite Hc, Hf.
  repeat split; try reflexivity.
  rewrite <- !app_assoc. simpl. do 2 f_equal.
  f_equal. apply map_ext. intros [s arg]. unfold passedThrough. destruct s; reflexivity.
Qed.

Lemma filesWritten_app (a b : list Event) :
  filesWritten (a ++ b) = filesWritten a ++ filesWritten b.
Proof.
  induction a as [| e a IH]; [reflexivity |].
  destruct e; simpl; now rewrite IH.
Qed.

Lemma filesWritten_passedThrough (p : Process) (ws : list (Stream * WriteArg)) :
  filesWritten (map (passedThrough p) ws) = [].
Proof. induction ws as [| write ws IH]; [reflexivity | exact IH]. Qed.

(** C5: with the transcript enabled, the file that the release writes
    holds the text of every write to the two streams, in the order of
    the writes; and on both exit paths of the delegated review
    (resolution and rejection) the release has run exactly once: the two
    writers are the original ones again, the directory was made, the
    transcript was written as one file (the only file written since the
    token was resolved), and the confirmation line with the relative
    path was printed. *)
Theorem reviewPR_transcript (w : World) (prNumber : Js.number) (dryRun : bool)
    (owner repo : option string) (out : option OutArg) (p p1 : Process) (token : string) :
  wellFormed p ->
  outTruthy out = true ->
  resolveGitHubToken w p = (Returns token, p1) ->
  mkdirFails w (Path.dirname (outputPath (cwd p) prNumber out)) = false ->
  writeFileFails w (outputPath (cwd p) prNumber out) = false ->
  let outPath := outputPath (cwd p) prNumber out in
  let seen := reviewEnv prNumber dryRun owner repo (env p1) in
  let review := handlePullRequest w seen in
  let '(r, p') := reviewPR w prNumber dryRun owner repo out p in
  r = match rejection review with
      | Some reason => Throws (Rejection reason)
      | None => Returns tt
      end /\
  stdoutWrite p' = stdoutWrite p /\ stderrWrite p' = stderrWrite p /\
  files p' !! outPath = Some (transcriptOf (writes review)) /\
  filesWritten (trace p')
    = filesWritten (trace p1) ++ [(outPath, transcriptOf (writes review))] /\
  trace p' = trace p1 ++ ReviewInvoked seen :: map (passedThrough p) (writes review)
               ++ [DirectoryMade (Path.dirname outPath);
                   FileWritten outPath (transcriptOf (writes review));
                   Emitted (baseStream (stdoutWrite p))
                     ((newline +:+ "[dry-run] Saved output to "
                         +:+ Path.relative (cwd p) (cwd p) outPath) +:+ newline)].
Proof.
  intros Hwf Hout Hres Hmk Hwr. cbn zeta.
  pose proof (reviewPR_capture w prNumber dryRun owner repo out p p1 token
                Hwf Hout Hres Hmk Hwr) as H.
  cbn zeta in H.
  destruct (reviewPR w prNumber dryRun owner repo out p) as [r p'].
  destruct H as (Hr & Ho & He & Hf & Ht).
  split; [exact Hr | split; [exact Ho | split; [exact He | split; [| split]]]].
  - rewrite Hf. apply lookup_insert_eq.
  - rewrite Ht, filesWritten_app. simpl.
    rewrite filesWritten_app, filesWritten_passedThrough. reflexivity.
  - exact Ht.
Qed.

Lemma main_review (w : World) (argv : list string) (p : Process) (prNumber : Js.number) :
  args_listPrs (parseArgs argv) = false ->
  truthyNumber (args_pr (parseArgs argv)) = Some prNumber ->
  main w argv p =
    reviewPR w prNumber (args_dryRun (parseArgs argv))
      (fst (repositoryOf (parseArgs argv) p)) (snd (repositoryOf (parseArgs argv) p))
      (args_out (parseArgs argv)) p.
Proof.
  intros Hlist Hpr. unfold main, bind, gets.
  destruct (repositoryOf (parseArgs argv) p) as [owner repo]. now rewrite Hlist, Hpr.
Qed.

Lemma digitsOnly_digits (s : string) :
  Forall (fun c => Js.isDigit c = true) (list_ascii_of_string (Js.digitsOnly s)).
Proof.
  induction s as [| c s IH]; simpl; [constructor |].
  destruct (Js.isDigit c) eqn:E; [| exact IH]. simpl. now constructor.
Qed.

(** C8: without an explicit path the transcript goes to the file
    [pr-<digits>.txt] of the directory [dry] of the working directory,
    where [<digits>] keeps the decimal digits of the pull-request number
    only; and [--pr 42 --dry-run --out] writes what the run wrote on the
    two streams to [dry/pr-42.txt] under the working directory, which is
    also the relative path that the confirmation line shows. *)
Theorem default_transcript_path :
  (forall dir prNumber flag,
     outputPath dir prNumber (Some (OutFlag flag))
       = Path.join [dir; "dry";
                    "pr-" +:+ Js.digitsOnly (Js.stringOfNumber prNumber) +:+ ".txt"] /\
     Forall (fun c => Js.isDigit c = true)
       (list_ascii_of_string (Js.digitsOnly (Js.stringOfNumber prNumber)))) /\
  (forall w p p1 token,
     wellFormed p ->
     resolveGitHubToken w p = (Returns token, p1) ->
     mkdirFails w (Path.dirname (Path.join [cwd p; "dry"; "pr-42.txt"])) = false ->
     writeFileFails w (Path.join [cwd p; "dry"; "pr-42.txt"]) = false ->
     let outPath := Path.join [cwd p; "dry"; "pr-42.txt"] in
     let review :=
       handlePullRequest w
         (reviewEnv (Js.Num 42) true (fst (repositoryOf noArgs p))
            (snd (repositoryOf noArgs p)) (env p1)) in
     let '(r, p') := main w ["--pr"; "42"; "--dry-run"; "--out"] p in
     files p' = <[outPath := transcriptOf (writes review)]> (files p) /\
     last (trace p')
       = Some (Emitted (baseStream (stdoutWrite p))
                 ((newline +:+ "[dry-run] Saved output to "
                     +:+ Path.relative (cwd p) (cwd p) outPath) +:+ newline))) /\
  (forall segs,
     segs <> [] -> Forall Path.plainSegment segs ->
     Path.join [Path.absoluteOf segs; "dry"; "pr-42.txt"]
       = Path.absoluteOf segs +:+ "/dry/pr-42.txt" /\
     Path.relative (Path.absoluteOf segs) (Path.absoluteOf segs)
       (Path.join [Path.absoluteOf segs; "dry"; "pr-42.txt"]) = "dry/pr-42.txt").
Proof.
  split; [| split].
  - intros dir prNumber flag. split; [reflexivity | apply digitsOnly_digits].
  - intros w p p1 token Hwf Hres Hmk Hwr. cbn zeta.
    rewrite (main_review w ["--pr"; "42"; "--dry-run"; "--out"] p (Js.Num 42) eq_refl eq_refl).
    change (parseArgs ["--pr"; "42"; "--dry-run"; "--out"])
      with (setOut (OutFlag true) (setDryRun (setPr (Js.Num 42) noArgs))).
    change (repositoryOf (setOut (OutFlag true) (setDryRun (setPr (Js.Num 42) noArgs))) p)
      with (repositoryOf noArgs p).
    cbn [args_dryRun args_out setOut setDryRun setPr].
    pose proof (reviewPR_capture w (Js.Num 42) true (fst (repositoryOf noArgs p))
                  (snd (repositoryOf noArgs p)) (Some (OutFlag true)) p p1 token
                  Hwf eq_refl Hres Hmk Hwr) as H.
    cbn zeta in H.
    destruct (reviewPR w (Js.Num 42) true _ _ _ p) as [r p'].
    destruct H as (_ & _ & _ & Hf & Ht). split; [exact Hf |].
    rewrite Ht. unfold released.
    rewrite last_app_cons, app_comm_cons, last_app. reflexivity.
  - intros segs Hne Hall.
    assert (Hmore : Forall Path.plainSegment ["dry"; "pr-42.txt"]).
    { repeat constructor. }
    rewrite (PathFacts.join_absoluteOf segs ["dry"; "pr-42.txt"] Hne ltac:(discriminate)
               Hall Hmore).
    rewrite (PathFacts.relative_below segs ["dry"; "pr-42.txt"] Hne ltac:(discriminate)
               Hall Hmore).
    split; [| reflexivity].
    unfold Path.absoluteOf.
    rewrite (PathFacts.join_app segs ["dry"; "pr-42.txt"] Hne ltac:(discriminate)).
    now rewrite PathFacts.append_assoc.
Qed.

(** ** The harness at work *)

Lemma resolveGitHubToken_sources_witness :
  let '(r, p') := resolveGitHubToken dotenvWorld (freshProcess "/work" ∅) in
  r = Returns "ghp_file" /\ trace p' = [ConfigLoaded "/work/.env"].
Proof.
  pose proof (resolveGitHubToken_sources dotenvWorld (freshProcess "/work" ∅)) as H.
  vm_compute in H. vm_compute. exact (proj1 H).
Defined.

(** With [GITHUB_TOKEN] defined empty the token of the [.env] file is
    passed over: the file is loaded, and the token returned is that of
    the session command. *)
Lemma resolveGitHubToken_passes_over_file_token :
  let p := freshProcess "/work" {["GITHUB_TOKEN" := EmptyString]} in
  explicitToken p = None /\
  dotenvAt dotenvWorld (Path.resolve (cwd p) ".env")
    = Some (DotenvParsed {["GITHUB_TOKEN" := "ghp_file"]}) /\
  fst (resolveGitHubToken dotenvWorld p) = Returns "gho_abc" /\
  fst (resolveGitHubToken dotenvWorld p) <> Returns "ghp_file" /\
  trace (snd (resolveGitHubToken dotenvWorld p))
    = [ConfigLoaded "/work/.env"; Executed "gh auth token"].
Proof.
  vm_compute. repeat split; discriminate.
Qed.

(** A [.env] file that [dotenv.config] cannot read leaves no warning:
    the error comes back in the value that the harness drops. *)
Lemma resolveGitHubToken_unreadable_file_is_silent :
  let '(r, p') := resolveGitHubToken sessionWorld (freshProcess "/work" ∅) in
  r = Returns "gho_abc" /\
  trace p' = [ConfigLoaded "/work/.env"; Executed "gh auth token"].
Proof.
  vm_compute. split; reflexivity.
Qed.

Lemma resolveGitHubToken_idempotent_witness :
  let p' := snd (resolveGitHubToken sessionWorld (freshProcess "/work" ∅)) in
  resolveEach [emptyWorld; sessionWorld] p' = (Returns ["gho_abc"; "gho_abc"], p').
Proof.
  exact (resolveGitHubToken_idempotent sessionWorld (freshProcess "/work" ∅)
           (snd (resolveGitHubToken sessionWorld (freshProcess "/work" ∅))) "gho_abc"
           eq_refl [emptyWorld; sessionWorld]).
Defined.

Lemma resolveGitHubToken_sets_flag_witness :
  let '(r, p') := resolveGitHubToken emptyWorld (freshProcess "/work" ∅) in
  r = Throws NoCredentialError /\
  env p' !! "GITHUB_ACTION" = Some "local" /\
  env p' <> env (freshProcess "/work" ∅).
Proof.
  pose proof (resolveGitHubToken_sets_flag emptyWorld (freshProcess "/work" ∅)) as H.
  destruct (resolveGitHubToken emptyWorld (freshProcess "/work" ∅)) as [r p'] eqn:E.
  destruct H as (_ & _ & H & _). specialize (H eq_refl).
  split; [| exact H]. vm_compute in E. now inversion E.
Defined.

Lemma listing_prints_limit_witness :
  let '(r, p') := main sessionWorld ["--list-prs"; "--state"; "open"; "--limit"; "2"]
                    (freshProcess "/work" {["GITHUB_TOKEN" := "ghp_xyz"]}) in
  r = Returns tt /\
  trace p' = [Paginated "ghp_xyz" None (Some "shawnd") (Some "pr-reviewer") "open";
              Emitted Stdout ("#57 Add retry by @alice" +:+ newline);
              Emitted Stdout ("#56 Fix typo by @bob" +:+ newline)].
Proof.
  pose proof (proj2 (proj2 (proj2
                (listing_prints_limit sessionWorld
                   ["--list-prs"; "--state"; "open"; "--limit"; "2"]
                   (freshProcess "/work" {["GITHUB_TOKEN" := "ghp_xyz"]})
                   (snd (resolveGitHubToken sessionWorld
                           (freshProcess "/work" {["GITHUB_TOKEN" := "ghp_xyz"]})))
                   "ghp_xyz" fivePulls eq_refl eq_refl eq_refl)))
                eq_refl _ _ _ _ _ eq_refl) as H.
  vm_compute in H. vm_compute. exact H.
Defined.

Lemma reviewPR_transcript_witness :
  let '(r, p') := reviewPR sessionWorld (Js.Num 42) true (Some "shawnd") (Some "pr-reviewer")
                    (Some (OutPath "out/review.txt")) (freshProcess "/work" ∅) in
  r = Throws (Rejection "model backend unavailable") /\
  stdoutWrite p' = Original Stdout /\ stderrWrite p' = Original Stderr /\
  files p' !! "/work/out/review.txt"
    = Some ("Reviewing PR 42" +:+ newline +:+ "warning: large diff" +:+ newline
              +:+ "posting skipped (dry run)" +:+ newline) /\
  filesWritten (trace p')
    = [("/work/out/review.txt",
        "Reviewing PR 42" +:+ newline +:+ "warning: large diff" +:+ newline
          +:+ "posting skipped (dry run)" +:+ newline)].
Proof.
  pose proof (reviewPR_transcript sessionWorld (Js.Num 42) true (Some "shawnd")
                (Some "pr-reviewer") (Some (OutPath "out/review.txt"))
                (freshProcess "/work" ∅)
                (snd (resolveGitHubToken sessionWorld (freshProcess "/work" ∅))) "gho_abc"
                (conj I I) eq_refl eq_refl eq_refl eq_refl) as H.
  cbn zeta in H.
  destruct (reviewPR sessionWorld _ _ _ _ _ _) as [r p'].
  destruct H as (Hr & Ho & He & Hf & Hw & _).
  split; [exact Hr | split; [exact Ho | split; [exact He | split; [exact Hf |]]]].
  rewrite Hw. vm_compute. reflexivity.
Defined.

Lemma default_transcript_path_witness :
  let '(r, p') := main sessionWorld ["--pr"; "42"; "--dry-run"; "--out"]
                    (freshProcess "/work" ∅) in
  files p' = {["/work/dry/pr-42.txt" :=
                 "Reviewing PR 42" +:+ newline +:+ "warning: large diff" +:+ newline
                   +:+ "posting skipped (dry run)" +:+ newline]} /\
  last (trace p')
    = Some (Emitted Stdout (newline +:+ "[dry-run] Saved output to dry/pr-42.txt" +:+ newline)).
Proof.
  pose proof (proj1 (proj2 default_transcript_path) sessionWorld (freshProcess "/work" ∅)
                (snd (resolveGitHubToken sessionWorld (freshProcess "/work" ∅))) "gho_abc"
                (conj I I) eq_refl eq_refl eq_refl) as H.
  cbn zeta in H.
  destruct (main sessionWorld _ _) as [r p'].
  destruct H as [Hf Hl]. split.
  - rewrite Hf. vm_compute. reflexivity.
  - rewrite Hl. vm_compute. reflexivity.
Defined.

(** From [1e21] on a number is printed with an exponent, and the
    digits kept for the name of the file are those of that form:
    [--pr 1000000000000000000000] runs the review of [1e+21] and writes
    the transcript to [dry/pr-121.txt]. *)
Lemma transcript_path_of_large_number :
  let '(r, p') := main sessionWorld ["--pr"; "1000000000000000000000"; "--out"]
                    (freshProcess "/work" ∅) in
  args_pr (parseArgs ["--pr"; "1000000000000000000000"; "--out"]) = Some (Js.Num (10 ^ 21)) /\
  env p' !! "GITHUB_PULL_REQUEST" = Some "1e+21" /\
  files p' !! "/work/dry/pr-121.txt"
    = Some ("Reviewing PR 42" +:+ newline +:+ "warning: large diff" +:+ newline
              +:+ "posting skipped (dry run)" +:+ newline) /\
  last (trace p')
    = Some (Emitted Stdout (newline +:+ "[dry-run] Saved output to dry/pr-121.txt" +:+ newline)).
Proof.
  vm_compute. repeat split.
Qed.

Lemma reviewPR_debug_mode_witness :
  let '(r, p') := reviewPR sessionWorld (Js.Num 42) false (Some "shawnd") (Some "pr-reviewer")
                    None (freshProcess "/work" {["DEBUG" := "0"]}) in
  exists seen, invocations (trace p') = [seen] /\ seen !! "DEBUG" = Some "1".
Proof.
  pose proof (reviewPR_debug_mode sessionWorld (Js.Num 42) false (Some "shawnd")
                (Some "pr-reviewer") None (freshProcess "/work" {["DEBUG" := "0"]})) as H.
  destruct (reviewPR sessionWorld _ _ _ _ _ _) as [r p'].
  destruct (resolveGitHubToken sessionWorld (freshProcess "/work" {["DEBUG" := "0"]}))
    as [[token | e] p1] eqn:E; [| vm_compute in E; discriminate E].
  destruct H as (Hi & Hd & _). eexists. split; [exact Hi | exact Hd].
Defined.

End CliFacts.

(** ** Further behaviour of the inference provider *)

Module ProviderBehaviour.
Import Inference InferenceFacts.

(** X1: the debug flag only adds a log line. The outcome of
    [runInference] is the same whatever the environment; the usage
    metadata is logged, as one line, exactly when [DEBUG] is a non-empty
    string and the backend answered; nothing is logged when the backend
    fails, and the call then rejects with the reason of the backend,
    whatever the schema. *)
Theorem runInference_debug_only_logs {H : Type} (gen : GenerateArgs H -> Generated)
    (self : AISDKProvider H) (env env' : gmap string string) (key : string)
    (cfg : InferenceConfig) :
  snd (runInference gen self env key cfg) = snd (runInference gen self env' key cfg) /\
  fst (runInference gen self env key cfg)
    = match gen (generateArgs self key cfg), Js.truthyString (env !! "DEBUG") with
      | Generates _ usage, Some _ => ["usage: " +:+ String (ascii_of_nat 10) usage]
      | _, _ => []
      end /\
  (forall reason, gen (generateArgs self key cfg) = GenerateFails reason ->
     runInference gen self env key cfg = ([], Rejected (BackendThrown reason))).
Proof.
  unfold runInference.
  destruct (gen (generateArgs self key cfg)) as [object usage | reason'].
  - split; [reflexivity | split; [| discriminate]].
    simpl. destruct (Js.truthyString (env !! "DEBUG")); reflexivity.
  - split; [reflexivity | split; [reflexivity |]]. now intros reason [= ->].
Qed.

(** The shapes that line 113 does not take for a wrapped response. *)
Lemma isWrapped_false (object : JsValue) :
  (forall props, object = JObj props -> getProp SENTINEL props = None) ->
  isWrapped object = false.
Proof.
  intros Hno. destruct (isWrapped object) eqn:E; [| reflexivity].
  apply isWrapped_spec in E. destruct E as (props & payload & -> & E).
  rewrite (Hno props eq_refl) in E. discriminate.
Qed.

(** X2: only an object that has the reserved key among its own
    properties is unwrapped. [null], [undefined], a primitive, an array
    (also one whose elements are wrapped objects) and an object without
    the key (also one that holds a wrapped object under another key)
    are returned as they were received, whatever the schema of the
    request. *)
Theorem runInference_unwraps_top_level_only {H : Type} (gen : GenerateArgs H -> Generated)
    (self : AISDKProvider H) env key cfg object usage :
  gen (generateArgs self key cfg) = Generates object usage ->
  (forall props, object = JObj props -> getProp SENTINEL props = None) ->
  snd (runInference gen self env key cfg) = Resolved object.
Proof.
  intros G Hno. rewrite (runInference_outcome _ _ _ _ _ _ _ G).
  apply handleResponse_direct, isWrapped_false, Hno.
Qed.

Lemma runInference_unwraps_top_level_only_witness :
  snd (runInference
         (constantBackend (JArr [JObj [(SENTINEL, JStr "LGTM")]; JNull]))
         testProvider ∅ "key" (request zString))
    = Resolved (JArr [JObj [(SENTINEL, JStr "LGTM")]; JNull]).
Proof.
  refine (runInference_unwraps_top_level_only
            (constantBackend (JArr [JObj [(SENTINEL, JStr "LGTM")]; JNull]))
            testProvider ∅ "key" (request zString) _ "{}" eq_refl _).
  intros props E. discriminate E.
Defined.

End ProviderBehaviour.

(** ** Further behaviour of the command line harness *)

Module HarnessBehaviour.
Import Cli CliFacts PathFacts JsFacts.

(** ** Credentials *)

Lemma getEnv_None_setEnv (name token : string) (p : Process) :
  token <> EmptyString -> getEnv name (setEnv name token p) = Some token.
Proof.
  intros Hne. apply getEnv_lookup. split; [apply lookup_insert_eq | exact Hne].
Qed.

(** X3: [resolveGitHubToken] throws nothing but the no-credential
    error (a failing [gh] is swallowed), and after the call the
    environment holds a non-empty [GITHUB_TOKEN] exactly when the call
    returned, the token returned being that one. *)
Theorem resolveGitHubToken_outcome (w : World) (p : Process) :
  let '(r, p') := resolveGitHubToken w p in
  match r with
  | Returns token => getEnv "GITHUB_TOKEN" p' = Some token /\ token <> EmptyString
  | Throws e => e = NoCredentialError /\ getEnv "GITHUB_TOKEN" p' = None
  end.
Proof.
  rewrite resolveGitHubToken_eq.
  destruct (getEnv "GITHUB_TOKEN" (ensureAction p)) as [token |] eqn:E1.
  { split; [exact E1 |]. now apply getEnv_lookup in E1. }
  destruct (getEnv "GITHUB_TOKEN" (afterDotenv w (ensureAction p))) as [token |] eqn:E2.
  { split; [exact E2 |]. now apply getEnv_lookup in E2. }
  rewrite tokenFromGh_eq. destruct (sessionToken w) as [token |] eqn:E3.
  - pose proof (sessionToken_nonempty w token E3) as Hne.
    split; [| exact Hne]. now apply getEnv_None_setEnv.
  - split; [reflexivity |]. exact E2.
Qed.

(** X4: a token that comes from [gh auth token] is the output of the
    command with the white space around it removed: trimming it again
    changes nothing; it is returned and stored in
    [process.env.GITHUB_TOKEN] in that form, and an output of white
    space only is no token. *)
Theorem resolveGitHubToken_session_token_trimmed (w : World) (p : Process) (out : string) :
  explicitToken p = None ->
  fileToken w p = None ->
  ghAuthToken w = Some out ->
  let '(r, p') := resolveGitHubToken w p in
  (Js.trim out = EmptyString -> r = Throws NoCredentialError) /\
  (Js.trim out <> EmptyString ->
     r = Returns (Js.trim out) /\ env p' !! "GITHUB_TOKEN" = Some (Js.trim out)) /\
  Js.trim (Js.trim out) = Js.trim out.
Proof.
  intros Hex Hfile Hgh.
  pose proof (resolveGitHubToken_cases w p) as H.
  destruct (resolveGitHubToken w p) as [r p']. destruct H as [Hcases Hcache].
  rewrite Hex, Hfile in Hcases. unfold sessionToken in Hcases. rewrite Hgh in Hcases.
  split; [| split; [| apply trim_idem]].
  - intros E. rewrite E in Hcases. now destruct Hcases.
  - intros Hne. destruct (Js.trim out) as [| c rest] eqn:E; [congruence |].
    simpl in Hcases. destruct Hcases as [-> _]. split; [reflexivity |].
    apply (getEnv_Some "GITHUB_TOKEN"). now apply Hcache.
Qed.

Lemma resolveGitHubToken_session_token_trimmed_witness :
  let '(r, p') := resolveGitHubToken sessionWorld (freshProcess "/work" ∅) in
  r = Returns "gho_abc" /\ env p' !! "GITHUB_TOKEN" = Some "gho_abc".
Proof.
  pose proof (resolveGitHubToken_session_token_trimmed sessionWorld (freshProcess "/work" ∅)
                ("gho_abc" +:+ newline) eq_refl eq_refl eq_refl) as H.
  destruct (resolveGitHubToken sessionWorld (freshProcess "/work" ∅)) as [r p'].
  destruct H as (_ & H & _). apply H. vm_compute. discriminate.
Defined.

(** X5: a call of [resolveGitHubToken] never changes a variable that
    the environment defines with a non-empty value, and of the variables
    defined empty it can only fill [GITHUB_ACTION] and [GITHUB_TOKEN]
    (the [.env] file defines missing names only). *)
Theorem resolveGitHubToken_keeps_variables (w : World) (p : Process) (name value : string) :
  env p !! name = Some value ->
  value <> EmptyString \/ (name <> "GITHUB_ACTION" /\ name <> "GITHUB_TOKEN") ->
  env (snd (resolveGitHubToken w p)) !! name = Some value.
Proof.
  intros Hdef Hkeep. rewrite resolveGitHubToken_eq.
  assert (H0 : env (ensureAction p) !! name = Some value).
  { unfold ensureAction. destruct (getEnv "GITHUB_ACTION" p) as [a |] eqn:Ea; [exact Hdef |].
    simpl. destruct (decide (name = "GITHUB_ACTION")) as [-> | Hne].
    - destruct Hkeep as [Hv | [Hbad _]]; [| congruence].
      assert (getEnv "GITHUB_ACTION" p = Some value) by (now apply getEnv_lookup).
      congruence.
    - now rewrite lookup_insert_ne. }
  destruct (afterDotenv_frame w (ensureAction p)) as (_ & _ & _ & _ & _ & _ & Hkept).
  pose proof (Hkept name value H0) as H1.
  destruct (getEnv "GITHUB_TOKEN" (ensureAction p)) as [token |]; [exact H0 |].
  destruct (getEnv "GITHUB_TOKEN" (afterDotenv w (ensureAction p))) as [token |] eqn:E2;
    [exact H1 |].
  rewrite tokenFromGh_eq. destruct (sessionToken w) as [token |]; simpl; [| exact H1].
  destruct (decide (name = "GITHUB_TOKEN")) as [-> | Hne].
  - destruct Hkeep as [Hv | [_ Hbad]]; [| congruence].
    assert (getEnv "GITHUB_TOKEN" (afterDotenv w (ensureAction p)) = Some value)
      by (now apply getEnv_lookup).
    congruence.
  - now rewrite lookup_insert_ne.
Qed.

Lemma resolveGitHubToken_keeps_variables_witness :
  env (snd (resolveGitHubToken sessionWorld
              (freshProcess "/work" {["GITHUB_ACTION" := "run-7"; "HOME" := EmptyString]})))
    !! "GITHUB_ACTION" = Some "run-7".
Proof.
  apply (resolveGitHubToken_keeps_variables sessionWorld
           (freshProcess "/work" {["GITHUB_ACTION" := "run-7"; "HOME" := EmptyString]})
           "GITHUB_ACTION" "run-7").
  - vm_compute. reflexivity.
  - left. discriminate.
Defined.

(** ** Arguments *)

Lemma parseLoop_step (args : Args) (a : string) (rest : list string) :
  parseLoop args (a :: rest)
    = parseLoop (fst (parseStep args a rest)) (snd (parseStep args a rest)).
Proof.
  unfold parseStep. simpl.
  repeat (match goal with |- context [String.eqb a ?f] => destruct (String.eqb a f) end;
          simpl; try reflexivity; try (destruct rest; reflexivity)).
  all: destruct rest as [| next after]; try reflexivity;
    destruct (isPathToken next); reflexivity.
Qed.

Lemma parseStep_rest (args : Args) (a : string) (rest : list string) :
  snd (parseStep args a rest) = rest \/ snd (parseStep args a rest) = tail rest.
Proof.
  unfold parseStep.
  repeat (match goal with |- context [String.eqb a ?f] => destruct (String.eqb a f) end;
          simpl; auto).
  all: destruct rest as [| next after]; auto; destruct (isPathToken next); auto.
Qed.

(** A property of the object that every turn keeps, at the tokens
    allowed by [ok], holds of the result. *)
Lemma parseLoop_invariant (I : Args -> Prop) (ok : string -> Prop) :
  (forall args a rest, ok a -> I args -> I (fst (parseStep args a rest))) ->
  forall argv, Forall ok argv -> forall args, I args -> I (parseLoop args argv).
Proof.
  intros Hstep argv.
  remember (length argv) as n eqn:Hn.
  revert argv Hn. induction n as [n IH] using lt_wf_ind.
  intros [| a rest] Hn Hok args HI; [exact HI |].
  rewrite parseLoop_step.
  inversion Hok as [| ? ? Ha Hrest]; subst.
  assert (Hok' : Forall ok (snd (parseStep args a rest))).
  { destruct (parseStep_rest args a rest) as [-> | ->]; [exact Hrest |].
    destruct rest; [constructor | now inversion Hrest]. }
  assert (Hlen : (length (snd (parseStep args a rest)) < length (a :: rest))%nat).
  { destruct (parseStep_rest args a rest) as [-> | ->]; simpl; [lia |].
    destruct rest; simpl; lia. }
  apply (IH _ Hlen _ eq_refl Hok'). now apply Hstep.
Qed.

Lemma isFlag_false (a : string) :
  isFlag a = false ->
  forall args rest, parseStep args a rest = (pushPositional a args, rest).
Proof.
  unfold isFlag. simpl. intros H args rest.
  repeat (apply orb_false_elim in H; destruct H as [? H]).
  unfold parseStep.
  repeat match goal with E : String.eqb a _ = false |- _ => rewrite E; clear E end.
  reflexivity.
Qed.

Lemma parseLoop_unrecognised (argv : list string) :
  Forall (fun a => isFlag a = false) argv ->
  forall args,
    parseLoop args argv
      = {| args_positional := args_positional args ++ argv;
           args_dryRun := args_dryRun args; args_listPrs := args_listPrs args;
           args_state := args_state args; args_limit := args_limit args;
           args_pr := args_pr args; args_owner := args_owner args;
           args_repo := args_repo args; args_out := args_out args |}.
Proof.
  induction 1 as [| a rest Ha _ IH]; intros args.
  - rewrite app_nil_r. now destruct args.
  - rewrite parseLoop_step, (isFlag_false a Ha). simpl. rewrite IH. simpl.
    now rewrite <- app_assoc.
Qed.

(** X6: tokens that are none of the flags raise no error: they are
    collected, in order, under the key [_], and nothing else is set. *)
Theorem parseArgs_collects_unrecognised (argv : list string) :
  Forall (fun a => isFlag a = false) argv ->
  parseArgs argv = positionalOnly argv.
Proof.
  intros H. unfold parseArgs. now rewrite (parseLoop_unrecognised argv H).
Qed.

Lemma parseArgs_collects_unrecognised_witness :
  parseArgs ["review"; "--verbose"; "42"] = positionalOnly ["review"; "--verbose"; "42"].
Proof.
  apply parseArgs_collects_unrecognised. repeat constructor.
Defined.

Ltac parse_step_cases a rest :=
  unfold parseStep;
  repeat (match goal with
          | |- context [String.eqb a ?f] => destruct (String.eqb a f) eqn:?
          end; simpl; try reflexivity; try congruence);
  try (destruct rest as [| ? ?]; simpl; try reflexivity; try congruence;
       match goal with
       | |- context [isPathToken ?n] => destruct (isPathToken n) eqn:?
       end; simpl; try reflexivity; try congruence).

Lemma eqb_absent (a flag : string) : a <> flag -> String.eqb a flag = false.
Proof. intros H. now apply String.eqb_neq. Qed.

Lemma absent_Forall (flag : string) (argv : list string) :
  flag ∉ argv -> Forall (fun a => a <> flag) argv.
Proof.
  intros H. apply Forall_forall. intros a Ha ->. contradiction.
Qed.

(** A field of the object is left as it is by the turns at other
    tokens than the flags that set it. *)
Lemma parseLoop_field {A} (field : Args -> A) (ok : string -> Prop) :
  (forall args a rest, ok a -> field (fst (parseStep args a rest)) = field args) ->
  forall argv, Forall ok argv -> forall args, field (parseLoop args argv) = field args.
Proof.
  intros Hstep argv Hok args.
  apply (parseLoop_invariant (fun r => field r = field args) ok); [| exact Hok | reflexivity].
  intros r a rest Ha Hr. now rewrite (Hstep r a rest Ha).
Qed.

(** X7: an option is set only by its flag: without [--dry-run] among
    the tokens the dry run is off, without [--list-prs] the listing is
    not selected, without [--out] and [-out] no transcript is asked
    for, and without [--pr], [--limit], [--state], [--owner] or
    [--repo] the corresponding key is missing. *)
Theorem parseArgs_sets_only_given (argv : list string) :
  ("--dry-run" ∉ argv -> args_dryRun (parseArgs argv) = false) /\
  ("--list-prs" ∉ argv -> args_listPrs (parseArgs argv) = false) /\
  ("--out" ∉ argv -> "-out" ∉ argv -> args_out (parseArgs argv) = None) /\
  ("--pr" ∉ argv -> args_pr (parseArgs argv) = None) /\
  ("--limit" ∉ argv -> args_limit (parseArgs argv) = None) /\
  ("--state" ∉ argv -> args_state (parseArgs argv) = None) /\
  ("--owner" ∉ argv -> args_owner (parseArgs argv) = None) /\
  ("--repo" ∉ argv -> args_repo (parseArgs argv) = None).
Proof.
  unfold parseArgs.
  repeat split; intros H.
  - apply (parseLoop_field args_dryRun (fun a => a <> "--dry-run"));
      [| now apply absent_Forall].
    intros args a rest Ha. apply eqb_absent in Ha. parse_step_cases a rest.
  - apply (parseLoop_field args_listPrs (fun a => a <> "--list-prs"));
      [| now apply absent_Forall].
    intros args a rest Ha. apply eqb_absent in Ha. parse_step_cases a rest.
  - intros H'.
    apply (parseLoop_field args_out (fun a => a <> "--out" /\ a <> "-out")).
    + intros args a rest [Ha Ha']. apply eqb_absent in Ha, Ha'. parse_step_cases a rest.
    + apply Forall_forall. intros a Ha. split; intros ->; contradiction.
  - apply (parseLoop_field args_pr (fun a => a <> "--pr")); [| now apply absent_Forall].
    intros args a rest Ha. apply eqb_absent in Ha. parse_step_cases a rest.
  - apply (parseLoop_field args_limit (fun a => a <> "--limit"));
      [| now apply absent_Forall].
    intros args a rest Ha. apply eqb_absent in Ha. parse_step_cases a rest.
  - apply (parseLoop_field args_state (fun a => a <> "--state"));
      [| now apply absent_Forall].
    intros args a rest Ha. apply eqb_absent in Ha. parse_step_cases a rest.
  - apply (parseLoop_field args_owner (fun a => a <> "--owner"));
      [| now apply absent_Forall].
    intros args a rest Ha. apply eqb_absent in Ha. parse_step_cases a rest.
  - apply (parseLoop_field args_repo (fun a => a <> "--repo"));
      [| now apply absent_Forall].
    intros args a rest Ha. apply eqb_absent in Ha. parse_step_cases a rest.
Qed.

(** X8: when [parseArgs] sets [out], the value is truthy: [true], or a
    path that is not empty and does not start with [-]; so a flag
    [--out] or [-out] that is read always enables the transcript. *)
Theorem parseArgs_out_truthy (argv : list string) :
  match args_out (parseArgs argv) with
  | None => True
  | Some (OutFlag b) => b = true
  | Some (OutPath path) => isPathToken path = true
  end /\
  (args_out (parseArgs argv) <> None -> outTruthy (args_out (parseArgs argv)) = true).
Proof.
  assert (H : match args_out (parseArgs argv) with
              | None => True
              | Some (OutFlag b) => b = true
              | Some (OutPath path) => isPathToken path = true
              end).
  { unfold parseArgs.
    apply (parseLoop_invariant
             (fun r => match args_out r with
                       | None => True
                       | Some (OutFlag b) => b = true
                       | Some (OutPath path) => isPathToken path = true
                       end) (fun _ => True)).
    - intros args a rest _ HI. unfold parseStep.
      repeat (match goal with
              | |- context [String.eqb a ?f] => destruct (String.eqb a f)
              end; simpl; try exact HI; try reflexivity).
      all: destruct rest as [| next after]; simpl; try reflexivity;
        destruct (isPathToken next) eqn:E; simpl; auto.
    - apply Forall_forall. auto.
    - exact I. }
  split; [exact H |].
  intros Hset. destruct (args_out (parseArgs argv)) as [[b | path] |];
    [exact H | | congruence].
  simpl. apply isPathToken_spec in H. destruct H as [Hne _].
  destruct path; [congruence | reflexivity].
Qed.

(** ** Dispatch *)

Lemma main_usage (w : World) (argv : list string) (p : Process) :
  args_listPrs (parseArgs argv) = false ->
  truthyNumber (args_pr (parseArgs argv)) = None ->
  main w argv p = (Returns tt, writeVia (stdoutWrite p) (Text (usage +:+ newline)) p).
Proof.
  intros Hlist Hpr. unfold main, bind, gets.
  destruct (repositoryOf (parseArgs argv) p) as [owner repo]. now rewrite Hlist, Hpr.
Qed.

(** X9: tokens that select no action (no [--list-prs], and no [--pr]
    with a number other than 0) make [main] print the usage text and
    return normally: no token is looked for, and the environment, the
    files and the writers are left as they are. *)
Theorem main_prints_usage (w : World) (argv : list string) (p : Process) :
  args_listPrs (parseArgs argv) = false ->
  truthyNumber (args_pr (parseArgs argv)) = None ->
  let '(r, p') := main w argv p in
  r = Returns tt /\
  env p' = env p /\ files p' = files p /\
  stdoutWrite p' = stdoutWrite p /\ stderrWrite p' = stderrWrite p /\
  trace p' = trace p ++ [Emitted (baseStream (stdoutWrite p)) (usage +:+ newline)].
Proof.
  intros Hlist Hpr. rewrite (main_usage w argv p Hlist Hpr).
  destruct (writeVia_frame (stdoutWrite p) (Text (usage +:+ newline)) p)
    as (He & _ & Ho & Hr & Hf & _ & Ht & _).
  repeat split; assumption.
Qed.

Lemma main_prints_usage_witness :
  let '(r, p') := main sessionWorld ["--pr"; "abc"; "--dry-run"; "--out"]
                    (freshProcess "/work" ∅) in
  r = Returns tt /\ env p' = ∅ /\ trace p' = [Emitted Stdout (usage +:+ newline)].
Proof.
  pose proof (main_prints_usage sessionWorld ["--pr"; "abc"; "--dry-run"; "--out"]
                (freshProcess "/work" ∅) eq_refl eq_refl) as H.
  destruct (main sessionWorld _ _) as [r p'].
  destruct H as (Hr & He & _ & _ & _ & Ht). repeat split; assumption.
Defined.

Lemma listPRs_cases (w : World) (owner repo : option string) (state : string)
    (limit : Js.number) (p : Process) :
  listPRs w owner repo state limit p =
    match resolveGitHubToken w p with
    | (Throws e, p1) => (Throws e, p1)
    | (Returns token, p1) =>
        let asked := record (Paginated token (getEnv "GITHUB_API_URL" p1) owner repo state) p1 in
        match paginatePulls w token (getEnv "GITHUB_API_URL" p1) owner repo state with
        | Throws e => (Throws e, asked)
        | Returns all => forEach (sliceTo all limit) (fun pr => consoleLog (prLine pr)) asked
        end
    end.
Proof.
  unfold listPRs, bind at 1.
  destruct (resolveGitHubToken w p) as [[token | e] p1]; [| reflexivity].
  unfold bind at 1, gets. unfold bind at 1, paginate, bind at 1, modify.
  cbn [env record]. cbn zeta.
  destruct (paginatePulls w token (getEnv "GITHUB_API_URL" p1) owner repo state);
    reflexivity.
Qed.

Lemma main_action (w : World) (argv : list string) (p : Process) :
  args_listPrs (parseArgs argv) = true \/ truthyNumber (args_pr (parseArgs argv)) <> None ->
  forall e p1, resolveGitHubToken w p = (Throws e, p1) -> main w argv p = (Throws e, p1).
Proof.
  intros Hact e p1 Hres.
  destruct (args_listPrs (parseArgs argv)) eqn:Hlist.
  - rewrite (main_listing w argv p Hlist), listPRs_cases. now rewrite Hres.
  - destruct Hact as [? | Hpr]; [discriminate |].
    destruct (truthyNumber (args_pr (parseArgs argv))) as [n |] eqn:En; [| congruence].
    rewrite (main_review w argv p n Hlist En), reviewPR_eq. now rewrite Hres.
Qed.

(** X10: without a token from any of the three sources, both the
    listing and the review fail with the no-credential error before
    anything else is done: the trace holds the attempt to load the
    [.env] file and the run of [gh auth token] only (no request to the
    platform, no invocation of the review), the writers are not
    replaced and no file is written. *)
Theorem main_needs_credential (w : World) (argv : list string) (p : Process) :
  args_listPrs (parseArgs argv) = true \/ truthyNumber (args_pr (parseArgs argv)) <> None ->
  explicitToken p = None -> fileToken w p = None -> sessionToken w = None ->
  let '(r, p') := main w argv p in
  r = Throws NoCredentialError /\
  trace p' = trace p ++ dotenvEvents w p ++ [Executed "gh auth token"] /\
  stdoutWrite p' = stdoutWrite p /\ stderrWrite p' = stderrWrite p /\
  files p' = files p.
Proof.
  intros Hact Hex Hfile Hgh.
  pose proof (resolveGitHubToken_cases w p) as Hc.
  pose proof (resolveGitHubToken_frame w p) as Hfr.
  destruct (resolveGitHubToken w p) as [r p1] eqn:Hres.
  rewrite Hex, Hfile, Hgh in Hc. destruct Hc as [[-> Ht] _].
  rewrite (main_action w argv p Hact _ _ Hres).
  simpl in Hfr. destruct Hfr as (_ & Ho & Hr & _ & Hf & _).
  repeat split; assumption.
Qed.

Lemma main_needs_credential_witness :
  let '(r, p') := main emptyWorld ["--pr"; "42"; "--out"] (freshProcess "/work" ∅) in
  r = Throws NoCredentialError /\ trace p' = [Executed "gh auth token"] /\ files p' = ∅.
Proof.
  pose proof (main_needs_credential emptyWorld ["--pr"; "42"; "--out"]
                (freshProcess "/work" ∅)) as H.
  destruct (main emptyWorld _ _) as [r p'].
  destruct H as (Hr & Ht & _ & _ & Hf); try reflexivity.
  - right. discriminate.
  - repeat split; assumption.
Defined.

(** X11: when the platform rejects the request of the listing, [main]
    fails with the error of the platform and prints no line: after the
    token is resolved the trace holds the request only. *)
Theorem main_listing_platform_error (w : World) (argv : list string) (p p1 : Process)
    (token : string) (e : Exception) :
  args_listPrs (parseArgs argv) = true ->
  resolveGitHubToken w p = (Returns token, p1) ->
  paginatePulls w token (getEnv "GITHUB_API_URL" p1)
    (fst (repositoryOf (parseArgs argv) p)) (snd (repositoryOf (parseArgs argv) p))
    (orDefault "open" (args_state (parseArgs argv))) = Throws e ->
  let '(r, p') := main w argv p in
  r = Throws e /\
  env p' = env p1 /\
  trace p' = trace p1
    ++ [Paginated token (getEnv "GITHUB_API_URL" p1)
          (fst (repositoryOf (parseArgs argv) p)) (snd (repositoryOf (parseArgs argv) p))
          (orDefault "open" (args_state (parseArgs argv)))].
Proof.
  intros Hlist Hres Hpage.
  rewrite (main_listing w argv p Hlist), listPRs_cases, Hres. cbn zeta.
  rewrite Hpage. repeat split; reflexivity.
Qed.

Lemma main_listing_platform_error_witness :
  let '(r, p') := main unreachablePlatform ["--list-prs"; "--owner"; "acme"]
                    (freshProcess "/work" ∅) in
  r = Throws (JsError "HttpError: Not Found") /\
  trace p' = [Executed "gh auth token";
              Paginated "gho_abc" None (Some "acme") (Some "pr-reviewer") "open"].
Proof.
  pose proof (main_listing_platform_error unreachablePlatform
                ["--list-prs"; "--owner"; "acme"] (freshProcess "/work" ∅)
                (snd (resolveGitHubToken unreachablePlatform (freshProcess "/work" ∅)))
                "gho_abc" (JsError "HttpError: Not Found") eq_refl eq_refl eq_refl) as H.
  destruct (main unreachablePlatform _ _) as [r p'].
  destruct H as (Hr & _ & Ht). split; [exact Hr |]. rewrite Ht. reflexivity.
Defined.

Lemma filesWritten_resolve (w : World) (p : Process) :
  filesWritten (trace (snd (resolveGitHubToken w p))) = filesWritten (trace p).
Proof.
  pose proof (resolveGitHubToken_cases w p) as H.
  destruct (resolveGitHubToken w p) as [r p']. simpl. destruct H as [H _].
  assert (Hev : filesWritten (dotenvEvents w p) = []).
  { unfold dotenvEvents. cbn zeta.
    destruct (dotenvAt w (Path.resolve (cwd p) ".env")) as [[vars | err | err] |]; reflexivity. }
  destruct (explicitToken p); [destruct H as [_ ->]; reflexivity |].
  destruct (fileToken w p);
    [destruct H as [_ ->]; rewrite filesWritten_app, Hev; apply app_nil_r |].
  destruct (sessionToken w); destruct H as [_ ->];
    rewrite !filesWritten_app, Hev; simpl; now rewrite app_nil_r.
Qed.

Lemma forEach_printed_quiet (prs : list PullRequest) (p : Process) :
  invocations (map (printedLine p) prs) = [] /\ filesWritten (map (printedLine p) prs) = [].
Proof. induction prs as [| pr prs [IH1 IH2]]; split; auto. Qed.

(** X12: the listing does nothing but resolve the token, ask the
    platform and print: with [--list-prs] among the options, also when
    [--pr] is given with it, [main] never invokes the review, never
    writes a file and leaves the writers as they are, whatever the
    world answers. *)
Theorem main_listing_only_lists (w : World) (argv : list string) (p : Process) :
  args_listPrs (parseArgs argv) = true ->
  let p' := snd (main w argv p) in
  invocations (trace p') = invocations (trace p) /\
  filesWritten (trace p') = filesWritten (trace p) /\
  files p' = files p /\
  stdoutWrite p' = stdoutWrite p /\ stderrWrite p' = stderrWrite p.
Proof.
  intros Hlist. cbn zeta. rewrite (main_listing w argv p Hlist), listPRs_cases.
  pose proof (resolveGitHubToken_frame w p) as Hfr.
  pose proof (resolveGitHubToken_invocations w p) as Hinv.
  pose proof (filesWritten_resolve w p) as Hfw.
  destruct (resolveGitHubToken w p) as [[token | e] p1]; simpl in Hfr, Hinv, Hfw;
    destruct Hfr as (_ & Ho & Hr & _ & Hf & _); [| repeat split; assumption].
  cbn zeta.
  destruct (paginatePulls w token _ _ _ _) as [all | e]; simpl.
  - match goal with |- context [forEach ?l ?f ?q] =>
      pose proof (forEach_printed l q) as H; destruct (forEach l f q) as [r p'] end.
    destruct H as (_ & _ & _ & Hf' & Ho' & Hr' & Ht). simpl in *.
    match type of Ht with _ = _ ++ map (printedLine ?q) ?l =>
      destruct (forEach_printed_quiet l q) as [Hq1 Hq2] end.
    rewrite Ht, !invocations_app, !filesWritten_app, Hq1, Hq2. simpl.
    rewrite !app_nil_r. repeat split; congruence.
  - rewrite invocations_app, filesWritten_app. simpl. rewrite !app_nil_r.
    repeat split; assumption.
Qed.

Lemma main_listing_only_lists_witness :
  let p' := snd (main sessionWorld ["--pr"; "42"; "--out"; "--list-prs"]
                   (freshProcess "/work" ∅)) in
  invocations (trace p') = [] /\ files p' = ∅.
Proof.
  pose proof (main_listing_only_lists sessionWorld ["--pr"; "42"; "--out"; "--list-prs"]
                (freshProcess "/work" ∅) eq_refl) as H.
  cbn zeta in *. destruct H as (Hi & _ & Hf & _). split; assumption.
Defined.

(** X13: a negative limit counts from the end: with [--limit] giving
    [-k] the listing prints the lines of all pull requests but the last
    [k], and none when there are [k] or fewer. *)
Theorem main_listing_negative_limit (w : World) (argv : list string) (p p1 : Process)
    (token : string) (all : list PullRequest) (n : Z) :
  args_listPrs (parseArgs argv) = true ->
  resolveGitHubToken w p = (Returns token, p1) ->
  paginatePulls w token (getEnv "GITHUB_API_URL" p1)
    (fst (repositoryOf (parseArgs argv) p)) (snd (repositoryOf (parseArgs argv) p))
    (orDefault "open" (args_state (parseArgs argv))) = Returns all ->
  args_limit (parseArgs argv) = Some (Js.Num n) -> n < 0 ->
  listingPrints w argv p p1 token (take (length all - Z.to_nat (- n)) all).
Proof.
  intros Hlist Hres Hpage Hn Hneg.
  pose proof (main_listing_prints w argv p p1 token all Hlist Hres Hpage) as H.
  rewrite Hn in H. simpl in H.
  assert (E : (n =? 0) = false) by (apply Z.eqb_neq; lia).
  rewrite E in H. simpl in H. unfold Js.slice0 in H.
  assert (E' : (n <? 0) = true) by (apply Z.ltb_lt; lia).
  rewrite E' in H.
  replace (Z.to_nat (Z.max (Z.of_nat (length all) + n) 0))
    with (length all - Z.to_nat (- n))%nat in H by lia.
  exact H.
Qed.

Lemma main_listing_negative_limit_witness :
  listingPrints sessionWorld ["--list-prs"; "--limit"; "-2"]
    (freshProcess "/work" {["GITHUB_TOKEN" := "ghp_xyz"]})
    (snd (resolveGitHubToken sessionWorld
            (freshProcess "/work" {["GITHUB_TOKEN" := "ghp_xyz"]})))
    "ghp_xyz" (take 3 fivePulls).
Proof.
  exact (main_listing_negative_limit sessionWorld ["--list-prs"; "--limit"; "-2"]
           (freshProcess "/work" {["GITHUB_TOKEN" := "ghp_xyz"]})
           (snd (resolveGitHubToken sessionWorld
                   (freshProcess "/work" {["GITHUB_TOKEN" := "ghp_xyz"]})))
           "ghp_xyz" fivePulls (-2) eq_refl eq_refl eq_refl eq_refl eq_refl).
Defined.

(** ** The review flow *)

(** What the review flow leaves once the token is resolved, whatever
    [out] is and whatever the file system does. *)
Lemma reviewPR_always (w : World) (prNumber : Js.number) (dryRun : bool)
    (owner repo : option string) (out : option OutArg) (p p1 : Process) (token : string) :
  resolveGitHubToken w p = (Returns token, p1) ->
  let p' := snd (reviewPR w prNumber dryRun owner repo out p) in
  env p' = reviewEnv prNumber dryRun owner repo (env p1) /\
  invocations (trace p')
    = invocations (trace p) ++ [reviewEnv prNumber dryRun owner repo (env p1)] /\
  stdoutWrite p' = stdoutWrite p /\ stderrWrite p' = stderrWrite p.
Proof.
  intros Hres. cbn zeta. rewrite reviewPR_eq, Hres.
  pose proof (resolveGitHubToken_invocations w p) as Hinv.
  pose proof (resolveGitHubToken_frame w p) as Hfr.
  rewrite Hres in Hinv, Hfr. simpl in Hinv, Hfr.
  destruct Hfr as (_ & Ho & Hr & _).
  set (seen := reviewEnv prNumber dryRun owner repo (env p1)).
  cbn zeta. destruct (outTruthy out).
  - unfold tryFinally.
    match goal with |- context [runReview w ?q] =>
      pose proof (runReview_frame w q) as Hrun; destruct (runReview w q) as [rr p4] end.
    simpl in Hrun. destruct Hrun as (He & _ & _ & _ & _ & _ & Ht).
    match goal with |- context [restore w ?a ?b ?c ?d p4] =>
      pose proof (restore_always w a b c d p4) as Hrel;
      destruct (restore w a b c d p4) as [rc p5] end.
    simpl in Hrel. destruct Hrel as (Ho5 & Hr5 & He5 & Hi5).
    assert (Hgoal : env p5 = seen /\ invocations (trace p5) = invocations (trace p) ++ [seen]
                    /\ stdoutWrite p5 = stdoutWrite p /\ stderrWrite p5 = stderrWrite p).
    { rewrite Hi5, Ht, He5, He, invocations_app. simpl.
      rewrite invocations_passedThrough, Hinv. repeat split; congruence. }
    destruct rc; exact Hgoal.
  - unfold tryFinally, ret.
    match goal with |- context [runReview w ?q] =>
      pose proof (runReview_frame w q) as Hrun; destruct (runReview w q) as [rr p4] end.
    simpl in Hrun. destruct Hrun as (He & _ & _ & Ho4 & Hr4 & _ & Ht).
    simpl. rewrite Ht, He, invocations_app. simpl.
    rewrite invocations_passedThrough, Hinv. repeat split; congruence.
Qed.

Lemma reviewEnv_other (prNumber : Js.number) (dryRun : bool) (owner repo : option string)
    (e : gmap string string) (name : string) :
  name ∉ shimVariables ->
  reviewEnv prNumber dryRun owner repo e !! name = e !! name.
Proof.
  intros Hname. unfold shimVariables in Hname.
  repeat (apply not_elem_of_cons in Hname; destruct Hname as [? Hname]).
  unfold reviewEnv. destruct dryRun; now rewrite !lookup_insert_ne by congruence.
Qed.

(** X14: the review runs in the environment of a [synchronize] event
    of the pull request: it finds the repository as [owner/repo], the
    number, the event name and action, the token that was resolved, and
    [DRY_RUN] set to [1] under [--dry-run]; without [--dry-run] the
    variable [DRY_RUN] is left as it was (it is not cleared), every
    other variable is left as the token resolution left it, and the
    variables stay set when the flow ends. *)
Theorem reviewPR_environment (w : World) (prNumber : Js.number) (dryRun : bool)
    (owner repo : option string) (out : option OutArg) (p p1 : Process) (token : string) :
  resolveGitHubToken w p = (Returns token, p1) ->
  let seen := reviewEnv prNumber dryRun owner repo (env p1) in
  let p' := snd (reviewPR w prNumber dryRun owner repo out p) in
  invocations (trace p') = invocations (trace p) ++ [seen] /\
  env p' = seen /\
  seen !! "GITHUB_REPOSITORY" = Some (Js.template owner +:+ "/" +:+ Js.template repo) /\
  seen !! "GITHUB_PULL_REQUEST" = Some (Js.stringOfNumber prNumber) /\
  seen !! "GITHUB_EVENT_NAME" = Some "pull_request" /\
  seen !! "GITHUB_EVENT_ACTION" = Some "synchronize" /\
  seen !! "GITHUB_TOKEN" = Some token /\
  seen !! "DRY_RUN" = (if dryRun then Some "1" else env p1 !! "DRY_RUN") /\
  (forall name, name ∉ shimVariables -> seen !! name = env p1 !! name).
Proof.
  intros Hres. cbn zeta.
  destruct (reviewPR_always w prNumber dryRun owner repo out p p1 token Hres)
    as (He & Hi & _ & _).
  pose proof (resolveGitHubToken_cases w p) as Hc. rewrite Hres in Hc.
  destruct Hc as [_ Hcache]. specialize (Hcache token eq_refl).
  apply (getEnv_Some "GITHUB_TOKEN") in Hcache.
  split; [exact Hi | split; [exact He |]].
  repeat split.
  - unfold reviewEnv. destruct dryRun;
      repeat (rewrite lookup_insert_ne by discriminate); apply lookup_insert_eq.
  - unfold reviewEnv. destruct dryRun;
      repeat (rewrite lookup_insert_ne by discriminate); apply lookup_insert_eq.
  - unfold reviewEnv. destruct dryRun;
      repeat (rewrite lookup_insert_ne by discriminate); apply lookup_insert_eq.
  - unfold reviewEnv. destruct dryRun;
      repeat (rewrite lookup_insert_ne by discriminate); apply lookup_insert_eq.
  - rewrite reviewEnv_other; [exact Hcache |].
    unfold shimVariables. intros Hin. repeat (apply elem_of_cons in Hin; destruct Hin as [Hin | Hin];
      [discriminate Hin |]). now apply elem_of_nil in Hin.
  - unfold reviewEnv. destruct dryRun; [apply lookup_insert_eq |].
    now rewrite !lookup_insert_ne by discriminate.
  - intros name Hname. now apply reviewEnv_other.
Qed.

Lemma reviewPR_environment_witness :
  let p' := snd (reviewPR sessionWorld (Js.Num 42) false (Some "shawnd") None None
                   (freshProcess "/work" {["DRY_RUN" := "1"]})) in
  env p' !! "GITHUB_REPOSITORY" = Some "shawnd/undefined" /\
  env p' !! "GITHUB_PULL_REQUEST" = Some "42" /\
  env p' !! "GITHUB_TOKEN" = Some "gho_abc" /\
  env p' !! "DRY_RUN" = Some "1".
Proof.
  pose proof (reviewPR_environment sessionWorld (Js.Num 42) false (Some "shawnd") None None
                (freshProcess "/work" {["DRY_RUN" := "1"]})
                (snd (resolveGitHubToken sessionWorld
                        (freshProcess "/work" {["DRY_RUN" := "1"]})))
                "gho_abc" eq_refl) as H.
  cbn zeta in *.
  destruct H as (_ & He & H1 & H2 & _ & _ & H5 & H6 & _).
  rewrite He. split; [exact H1 | split; [exact H2 | split; [exact H5 |]]].
  rewrite H6. vm_compute. reflexivity.
Defined.

Lemma passedThrough_frame (p q : Process) (ws : list (Stream * WriteArg)) :
  baseStream (stdoutWrite q) = baseStream (stdoutWrite p) ->
  baseStream (stderrWrite q) = baseStream (stderrWrite p) ->
  map (passedThrough q) ws = map (passedThrough p) ws.
Proof.
  intros Ho Hr. apply map_ext. intros [s arg]. unfold passedThrough.
  destruct s; simpl; congruence.
Qed.

(** The review flow without transcript, once the token is resolved. *)
Lemma reviewPR_plain (w : World) (prNumber : Js.number) (dryRun : bool)
    (owner repo : option string) (out : option OutArg) (p p1 : Process) (token : string) :
  outTruthy out = false ->
  resolveGitHubToken w p = (Returns token, p1) ->
  let seen := reviewEnv prNumber dryRun owner repo (env p1) in
  let review := handlePullRequest w seen in
  let '(r, p') := reviewPR w prNumber dryRun owner repo out p in
  r = reviewOutcome review /\
  stdoutWrite p' = stdoutWrite p /\ stderrWrite p' = stderrWrite p /\
  files p' = files p /\
  trace p' = trace p1 ++ ReviewInvoked seen :: map (passedThrough p) (writes review).
Proof.
  intros Hout Hres. cbn zeta. rewrite reviewPR_eq, Hres, Hout. cbn zeta.
  pose proof (resolveGitHubToken_frame w p) as Hfr. rewrite Hres in Hfr. simpl in Hfr.
  destruct Hfr as (_ & Ho & Hr & _ & Hf & _).
  unfold tryFinally, ret. rewrite runReview_eq.
  match goal with |- context [forEach ?l ?f ?q] =>
    pose proof (forEach_writes l q) as H; destruct (forEach l f q) as [rw p4] end.
  destruct H as (_ & _ & _ & Hf4 & Ho4 & Hr4 & _ & Ht4). simpl in *.
  rewrite Ht4, Ho4, Hr4, Hf4, Ho, Hr, Hf. unfold reviewOutcome.
  repeat split; try reflexivity.
  rewrite <- app_assoc. simpl. do 2 f_equal.
  apply passedThrough_frame; simpl; congruence.
Qed.

(** X15: without a truthy [out] (no [--out], [false] or an empty
    string) nothing is captured: the writers are never replaced, no
    directory is made and no file is written; the flow ends as the
    delegated review ends, rejecting with its reason when it rejects,
    and the trace after the token resolution holds the invocation of
    the review and its writes only. *)
Theorem reviewPR_without_transcript (w : World) (prNumber : Js.number) (dryRun : bool)
    (owner repo : option string) (out : option OutArg) (p p1 : Process) (token : string) :
  outTruthy out = false ->
  resolveGitHubToken w p = (Returns token, p1) ->
  let seen := reviewEnv prNumber dryRun owner repo (env p1) in
  let review := handlePullRequest w seen in
  let '(r, p') := reviewPR w prNumber dryRun owner repo out p in
  r = match rejection review with
      | Some reason => Throws (Rejection reason)
      | None => Returns tt
      end /\
  stdoutWrite p' = stdoutWrite p /\ stderrWrite p' = stderrWrite p /\
  files p' = files p /\
  filesWritten (trace p') = filesWritten (trace p) /\
  trace p' = trace p1 ++ ReviewInvoked seen :: map (passedThrough p) (writes review).
Proof.
  intros Hout Hres. cbn zeta.
  pose proof (reviewPR_plain w prNumber dryRun owner repo out p p1 token Hout Hres) as H.
  cbn zeta in H.
  pose proof (filesWritten_resolve w p) as Hfw. rewrite Hres in Hfw. simpl in Hfw.
  destruct (reviewPR w prNumber dryRun owner repo out p) as [r p'].
  destruct H as (Hr & Ho & He & Hf & Ht).
  repeat split; try assumption.
  rewrite Ht, filesWritten_app. simpl.
  now rewrite filesWritten_passedThrough, app_nil_r.
Qed.

Lemma reviewPR_without_transcript_witness :
  let '(r, p') := reviewPR sessionWorld (Js.Num 42) true (Some "shawnd") (Some "pr-reviewer")
                    (Some (OutFlag false)) (freshProcess "/work" ∅) in
  r = Throws (Rejection "model backend unavailable") /\ files p' = ∅ /\
  stdoutWrite p' = Original Stdout.
Proof.
  pose proof (reviewPR_without_transcript sessionWorld (Js.Num 42) true (Some "shawnd")
                (Some "pr-reviewer") (Some (OutFlag false)) (freshProcess "/work" ∅)
                (snd (resolveGitHubToken sessionWorld (freshProcess "/work" ∅))) "gho_abc"
                eq_refl eq_refl) as H.
  cbn zeta in H. destruct (reviewPR sessionWorld _ _ _ _ _ _) as [r p'].
  destruct H as (Hr & Ho & _ & Hf & _). split; [exact Hr | split; [exact Hf | exact Ho]].
Defined.

(** X16: the transcript does not change what the run shows or does:
    with the same arguments, the flow with a truthy [out] ends with the
    same outcome, the same environment and the same writers as the flow
    without [out], and its trace is that of the flow without [out]
    followed by the three events of the release (every write of the
    review reaches the same stream with the same text). *)
Theorem reviewPR_transcript_transparent (w : World) (prNumber : Js.number) (dryRun : bool)
    (owner repo : option string) (out : option OutArg) (p p1 : Process) (token : string) :
  wellFormed p ->
  outTruthy out = true ->
  resolveGitHubToken w p = (Returns token, p1) ->
  mkdirFails w (Path.dirname (outputPath (cwd p) prNumber out)) = false ->
  writeFileFails w (outputPath (cwd p) prNumber out) = false ->
  let '(r1, q1) := reviewPR w prNumber dryRun owner repo out p in
  let '(r0, q0) := reviewPR w prNumber dryRun owner repo None p in
  r1 = r0 /\ env q1 = env q0 /\
  stdoutWrite q1 = stdoutWrite q0 /\ stderrWrite q1 = stderrWrite q0 /\
  trace q1 = trace q0
    ++ [DirectoryMade (Path.dirname (outputPath (cwd p) prNumber out));
        FileWritten (outputPath (cwd p) prNumber out)
          (transcriptOf
             (writes (handlePullRequest w (reviewEnv prNumber dryRun owner repo (env p1)))));
        Emitted (baseStream (stdoutWrite p))
          ((newline +:+ "[dry-run] Saved output to "
              +:+ Path.relative (cwd p) (cwd p) (outputPath (cwd p) prNumber out))
             +:+ newline)].
Proof.
  intros Hwf Hout Hres Hmk Hwr.
  pose proof (reviewPR_capture w prNumber dryRun owner repo out p p1 token
                Hwf Hout Hres Hmk Hwr) as H1.
  pose proof (reviewPR_plain w prNumber dryRun owner repo None p p1 token eq_refl Hres) as H0.
  pose proof (reviewPR_always w prNumber dryRun owner repo out p p1 token Hres) as A1.
  pose proof (reviewPR_always w prNumber dryRun owner repo None p p1 token Hres) as A0.
  cbn zeta in *.
  destruct (reviewPR w prNumber dryRun owner repo out p) as [r1 q1].
  destruct (reviewPR w prNumber dryRun owner repo None p) as [r0 q0].
  simpl in A1, A0.
  destruct H1 as (Hr1 & Ho1 & He1 & _ & Ht1).
  destruct H0 as (Hr0 & Ho0 & He0 & _ & Ht0).
  destruct A1 as (Henv1 & _). destruct A0 as (Henv0 & _).
  unfold reviewOutcome in Hr0.
  split; [congruence | split; [congruence | split; [congruence | split; [congruence |]]]].
  rewrite Ht1, Ht0. unfold released.
  rewrite <- app_assoc. simpl. reflexivity.
Qed.

Lemma reviewPR_transcript_transparent_witness :
  let '(r1, q1) := reviewPR sessionWorld (Js.Num 42) true (Some "shawnd") (Some "pr-reviewer")
                     (Some (OutFlag true)) (freshProcess "/work" ∅) in
  let '(r0, q0) := reviewPR sessionWorld (Js.Num 42) true (Some "shawnd") (Some "pr-reviewer")
                     None (freshProcess "/work" ∅) in
  r1 = r0 /\ env q1 = env q0 /\ length (trace q1) = (length (trace q0) + 3)%nat.
Proof.
  pose proof (reviewPR_transcript_transparent sessionWorld (Js.Num 42) true (Some "shawnd")
                (Some "pr-reviewer") (Some (OutFlag true)) (freshProcess "/work" ∅)
                (snd (resolveGitHubToken sessionWorld (freshProcess "/work" ∅))) "gho_abc"
                (conj I I) eq_refl eq_refl eq_refl eq_refl) as H.
  destruct (reviewPR sessionWorld _ _ _ _ (Some (OutFlag true)) _) as [r1 q1].
  destruct (reviewPR sessionWorld _ _ _ _ None _) as [r0 q0].
  destruct H as (Hr & He & _ & _ & Ht).
  split; [exact Hr | split; [exact He |]]. rewrite Ht, length_app. reflexivity.
Defined.

Lemma restore_fails (w : World) (o1 o2 : Writer) (outPath : string) (c : nat) (p : Process) :
  mkdirFails w (Path.dirname outPath) = true \/ writeFileFails w outPath = true ->
  restore w o1 o2 outPath c p =
    if mkdirFails w (Path.dirname outPath)
    then (Throws (FsFailure "mkdir" (Path.dirname outPath)), withWriters o1 o2 p)
    else (Throws (FsFailure "open" outPath),
          record (DirectoryMade (Path.dirname outPath)) (withWriters o1 o2 p)).
Proof.
  intros Hfail. unfold restore, bind, modify, gets, mkdirSync, writeFileSync, throw.
  destruct (mkdirFails w (Path.dirname outPath)); [reflexivity |].
  destruct Hfail as [? | Hwr]; [discriminate |].
  cbn -[Path.dirname Path.relative Js.join writeVia]. now rewrite Hwr.
Qed.

(** X17: when the release cannot make the directory or cannot write
    the file, the flow fails with the error of the file system, also
    when the delegated review had rejected (its reason is lost); the two
    original writers are in place again all the same, no file is
    written, and no confirmation line is printed. *)
Theorem reviewPR_release_failure (w : World) (prNumber : Js.number) (dryRun : bool)
    (owner repo : option string) (out : option OutArg) (p p1 : Process) (token : string) :
  outTruthy out = true ->
  resolveGitHubToken w p = (Returns token, p1) ->
  mkdirFails w (Path.dirname (outputPath (cwd p) prNumber out)) = true \/
  writeFileFails w (outputPath (cwd p) prNumber out) = true ->
  let outPath := outputPath (cwd p) prNumber out in
  let seen := reviewEnv prNumber dryRun owner repo (env p1) in
  let review := handlePullRequest w seen in
  let '(r, p') := reviewPR w prNumber dryRun owner repo out p in
  r = Throws (if mkdirFails w (Path.dirname outPath)
              then FsFailure "mkdir" (Path.dirname outPath)
              else FsFailure "open" outPath) /\
  stdoutWrite p' = stdoutWrite p /\ stderrWrite p' = stderrWrite p /\
  files p' = files p /\
  trace p' = trace p1 ++ ReviewInvoked seen :: map (passedThrough p) (writes review)
               ++ (if mkdirFails w (Path.dirname outPath) then []
                   else [DirectoryMade (Path.dirname outPath)]).
Proof.
  intros Hout Hres Hfail. cbn zeta.
  rewrite reviewPR_eq, Hres, Hout. cbn zeta.
  pose proof (resolveGitHubToken_frame w p) as Hfr. rewrite Hres in Hfr. simpl in Hfr.
  destruct Hfr as (Hc & Ho & Hr & Hl & Hf & _).
  cbn [withEnv cwd stdoutWrite stderrWrite buffers].
  rewrite Hc, Ho, Hr.
  set (seen := reviewEnv prNumber dryRun owner repo (env p1)).
  set (outPath := outputPath (cwd p) prNumber out) in *.
  set (p3 := withWriters _ _ _).
  unfold tryFinally. rewrite runReview_eq.
  change (env p3) with seen.
  match goal with |- context [forEach ?l ?f ?q] =>
    pose proof (forEach_writes l q) as Hws; destruct (forEach l f q) as [rw p4] end.
  destruct Hws as (_ & _ & _ & Hf4 & _ & _ & _ & Ht4). cbn [snd].
  rewrite (restore_fails w (stdoutWrite p) (stderrWrite p) outPath _ p4 Hfail).
  assert (Hpass : map (passedThrough (record (ReviewInvoked seen) p3))
                    (writes (handlePullRequest w seen))
                  = map (passedThrough p) (writes (handlePullRequest w seen))).
  { apply passedThrough_frame; reflexivity. }
  rewrite Hpass in Ht4.
  destruct (mkdirFails w (Path.dirname outPath)); simpl;
    rewrite Hf4, Ht4; subst p3; simpl; rewrite Hf;
    repeat split; try reflexivity; rewrite <- !app_assoc; simpl;
    rewrite ?app_nil_r; reflexivity.
Qed.

Lemma reviewPR_release_failure_witness :
  let '(r, p') := reviewPR readOnlyWorld (Js.Num 42) true (Some "shawnd") (Some "pr-reviewer")
                    (Some (OutFlag true)) (freshProcess "/work" ∅) in
  r = Throws (FsFailure "mkdir" "/work/dry") /\
  stdoutWrite p' = Original Stdout /\ stderrWrite p' = Original Stderr /\ files p' = ∅.
Proof.
  pose proof (reviewPR_release_failure readOnlyWorld (Js.Num 42) true (Some "shawnd")
                (Some "pr-reviewer") (Some (OutFlag true)) (freshProcess "/work" ∅)
                (snd (resolveGitHubToken readOnlyWorld (freshProcess "/work" ∅))) "gho_abc"
                eq_refl eq_refl (or_introl eq_refl)) as H.
  cbn zeta in H. destruct (reviewPR readOnlyWorld _ _ _ _ _ _) as [r p'].
  destruct H as (Hr & Ho & He & Hf & _).
  split; [exact Hr | split; [exact Ho | split; [exact He | exact Hf]]].
Defined.

(** ** A [.env] file that does not load *)

(** X18: a [.env] file that cannot be loaded does not stop the
    resolution of the token. With no token in the environment, a file
    that [dotenv.config] cannot read leaves nothing on either stream
    (the error comes back in the value that the harness drops), and the
    warning of the [catch] branch is written only when [dotenv.config]
    throws; in both cases the GitHub CLI is asked next, and its session
    alone decides between a token and the error of a missing
    credential. *)
Theorem resolveGitHubToken_broken_dotenv (w : World) (p : Process) (err : string) :
  explicitToken p = None ->
  (dotenvAt w (Path.resolve (cwd p) ".env") = Some (DotenvFails err) ->
   fst (resolveGitHubToken w p)
     = match sessionToken w with
       | Some token => Returns token
       | None => Throws NoCredentialError
       end /\
   trace (snd (resolveGitHubToken w p))
     = trace p ++ [ConfigLoaded (Path.resolve (cwd p) ".env"); Executed "gh auth token"]) /\
  (dotenvAt w (Path.resolve (cwd p) ".env") = Some (DotenvThrows err) ->
   fst (resolveGitHubToken w p)
     = match sessionToken w with
       | Some token => Returns token
       | None => Throws NoCredentialError
       end /\
   trace (snd (resolveGitHubToken w p))
     = trace p ++
       [ConfigLoaded (Path.resolve (cwd p) ".env");
        Emitted (baseStream (stderrWrite p))
          (("Failed to load .env file: " +:+ err) +:+ newline);
        Executed "gh auth token"]).
Proof.
  intros Hex.
  pose proof (resolveGitHubToken_cases w p) as H.
  destruct (resolveGitHubToken w p) as [r p']. destruct H as [H _].
  rewrite Hex in H. cbn [fst snd].
  split; intros Hfile.
  - assert (Hnone : fileToken w p = None) by (unfold fileToken; now rewrite Hfile).
    assert (Hev : dotenvEvents w p = [ConfigLoaded (Path.resolve (cwd p) ".env")])
      by (unfold dotenvEvents; cbn zeta; now rewrite Hfile).
    rewrite Hnone, Hev in H.
    destruct (sessionToken w); destruct H as [-> ->]; split; reflexivity.
  - assert (Hnone : fileToken w p = None) by (unfold fileToken; now rewrite Hfile).
    assert (Hev : dotenvEvents w p
                  = [ConfigLoaded (Path.resolve (cwd p) ".env");
                     Emitted (baseStream (stderrWrite p))
                       (("Failed to load .env file: " +:+ err) +:+ newline)])
      by (unfold dotenvEvents; cbn zeta; now rewrite Hfile).
    rewrite Hnone, Hev in H.
    destruct (sessionToken w); destruct H as [-> ->]; split; reflexivity.
Qed.

Lemma resolveGitHubToken_broken_dotenv_witness :
  (fst (resolveGitHubToken sessionWorld (freshProcess "/home/dev/pr-reviewer" ∅))
     = Returns "gho_abc" /\
   trace (snd (resolveGitHubToken sessionWorld (freshProcess "/home/dev/pr-reviewer" ∅)))
     = [ConfigLoaded "/home/dev/pr-reviewer/.env"; Executed "gh auth token"]) /\
  (fst (resolveGitHubToken throwingDotenvWorld (freshProcess "/home/dev/pr-reviewer" ∅))
     = Throws NoCredentialError /\
   trace (snd (resolveGitHubToken throwingDotenvWorld (freshProcess "/home/dev/pr-reviewer" ∅)))
     = [ConfigLoaded "/home/dev/pr-reviewer/.env";
        Emitted Stderr ("Failed to load .env file: Error: DECRYPTION_FAILED" +:+ newline);
        Executed "gh auth token"]).
Proof.
  split.
  - exact (proj1 (resolveGitHubToken_broken_dotenv sessionWorld
                    (freshProcess "/home/dev/pr-reviewer" ∅) "EACCES" eq_refl) eq_refl).
  - exact (proj2 (resolveGitHubToken_broken_dotenv throwingDotenvWorld
                    (freshProcess "/home/dev/pr-reviewer" ∅) "Error: DECRYPTION_FAILED"
                    eq_refl) eq_refl).
Defined.

(** ** Where the transcript goes *)

Lemma isAbsolute_relative (more : list string) :
  more <> [] -> Forall Path.plainSegment more ->
  Path.isAbsolute (Js.join "/" more) = false.
Proof.
  intros Hne Hall. destruct more as [| seg more]; [congruence |].
  inversion Hall as [| ? ? (He & _ & _ & Hs) _]; subst.
  destruct seg as [| c seg]; [discriminate |].
  simpl in Hs. inversion Hs as [| ? ? Hc _]; subst.
  assert (E : exists rest, Js.join "/" (String c seg :: more) = String c rest).
  { destruct more; [now exists seg |]. eexists. reflexivity. }
  destruct E as [rest ->]. unfold Path.isAbsolute, Js.startsWith.
  change (String.prefix "/" (String c rest))
    with (if Ascii.ascii_dec "/" c then String.prefix EmptyString rest else false).
  destruct (Ascii.ascii_dec "/" c) as [<- | _]; [discriminate Hc | reflexivity].
Qed.

Lemma join_relative (segs more : list string) :
  segs <> [] -> more <> [] ->
  Forall Path.plainSegment segs -> Forall Path.plainSegment more ->
  Path.join [Path.absoluteOf segs; Js.join "/" more] = Path.absoluteOf (segs ++ more).
Proof.
  intros Hne Hmore Hall Hall'.
  assert (Hrel : Js.isEmpty (Js.join "/" more) = false) by (now apply join_first_char).
  unfold Path.join. rewrite !filter_cons, filter_nil.
  destruct (decide (Js.isEmpty (Path.absoluteOf segs) = false)) as [_ | Hbad];
    [| exfalso; apply Hbad; reflexivity].
  destruct (decide (Js.isEmpty (Js.join "/" more) = false)) as [_ | Hbad];
    [| contradiction].
  assert (E : Js.join "/" [Path.absoluteOf segs; Js.join "/" more]
              = Path.absoluteOf (segs ++ more)).
  { unfold Path.absoluteOf. rewrite (join_app segs more Hne Hmore).
    change (Js.join "/" [("/" +:+ Js.join "/" segs); Js.join "/" more])
      with (("/" +:+ Js.join "/" segs) +:+ String "/" (Js.join "/" more)).
    now rewrite append_assoc. }
  rewrite E. apply normalize_absoluteOf.
  - destruct segs; [congruence | discriminate].
  - now apply Forall_app.
Qed.

(** X19: an explicit path of the transcript is taken relative to the
    working directory: under a normalized working directory [dir] a
    relative path of plain segments lands at [dir/path], and the
    confirmation line shows the path as it was given; an absolute path
    is used as it is; and a path of white space only stands for the
    default file of the pull request. *)
Theorem outputPath_explicit (prNumber : Js.number) :
  (forall segs more,
     segs <> [] -> more <> [] ->
     Forall Path.plainSegment segs -> Forall Path.plainSegment more ->
     Js.trim (Js.join "/" more) <> EmptyString ->
     outputPath (Path.absoluteOf segs) prNumber (Some (OutPath (Js.join "/" more)))
       = Path.absoluteOf segs +:+ "/" +:+ Js.join "/" more /\
     Path.relative (Path.absoluteOf segs) (Path.absoluteOf segs)
       (outputPath (Path.absoluteOf segs) prNumber (Some (OutPath (Js.join "/" more))))
       = Js.join "/" more) /\
  (forall dir path,
     Path.isAbsolute path = true -> Js.trim path <> EmptyString ->
     outputPath dir prNumber (Some (OutPath path)) = path) /\
  (forall dir path,
     Js.trim path = EmptyString ->
     outputPath dir prNumber (Some (OutPath path)) = defaultOutPath dir prNumber).
Proof.
  split; [| split].
  - intros segs more Hne Hmore Hall Hall' Htrim.
    assert (E : outputPath (Path.absoluteOf segs) prNumber
                  (Some (OutPath (Js.join "/" more))) = Path.absoluteOf (segs ++ more)).
    { unfold outputPath. destruct (Js.trim (Js.join "/" more)) eqn:Et; [congruence |].
      simpl. rewrite (isAbsolute_relative more Hmore Hall').
      now apply join_relative. }
    rewrite E. split.
    + unfold Path.absoluteOf. rewrite (join_app segs more Hne Hmore).
      now rewrite !append_assoc.
    + now apply relative_below.
  - intros dir path Habs Htrim. unfold outputPath.
    destruct (Js.trim path); [congruence |]. simpl. now rewrite Habs.
  - intros dir path Htrim. unfold outputPath. now rewrite Htrim.
Qed.

Lemma outputPath_explicit_witness :
  outputPath "/home/dev/pr-reviewer" (Js.Num 42) (Some (OutPath "out/review.txt"))
    = "/home/dev/pr-reviewer/out/review.txt" /\
  Path.relative "/home/dev/pr-reviewer" "/home/dev/pr-reviewer"
    (outputPath "/home/dev/pr-reviewer" (Js.Num 42) (Some (OutPath "out/review.txt")))
    = "out/review.txt".
Proof.
  refine (proj1 (outputPath_explicit (Js.Num 42)) ["home"; "dev"; "pr-reviewer"]
            ["out"; "review.txt"] _ _ _ _ _);
    try discriminate; repeat constructor.
Defined.

(** ** The repository aimed at *)

Lemma split_two (o r : string) :
  Forall (fun c => Path.isSlash c = false) (list_ascii_of_string o) ->
  Forall (fun c => Path.isSlash c = false) (list_ascii_of_string r) ->
  Js.split "/" (o +:+ "/" +:+ r) = [o; r].
Proof.
  intros Ho Hr.
  change (o +:+ "/" +:+ r) with (o +:+ String "/" r).
  now rewrite (split_segment o r Ho), (split_last r Hr).
Qed.

(** X20: owner and repository are chosen one by one: a flag
    [--owner] or [--repo] with a non-empty value wins; without it the
    variable [GITHUB_REPOSITORY] is split at [/], its first part is
    the owner and its second part the repository, so that a variable
    without [/] gives no repository at all; and without the variable
    the built-in [shawnd/pr-reviewer] is used. *)
Theorem repositoryOf_precedence (args : Args) (p : Process) :
  (forall o, Js.truthyString (args_owner args) = Some o ->
             fst (repositoryOf args p) = Some o) /\
  (forall r, Js.truthyString (args_repo args) = Some r ->
             snd (repositoryOf args p) = Some r) /\
  (Js.truthyString (args_owner args) = None ->
   (getEnv "GITHUB_REPOSITORY" p = None -> fst (repositoryOf args p) = Some "shawnd") /\
   (forall o rest,
      Forall (fun c => Path.isSlash c = false) (list_ascii_of_string o) ->
      getEnv "GITHUB_REPOSITORY" p = Some (o +:+ "/" +:+ rest) ->
      fst (repositoryOf args p) = Some o) /\
   (forall name,
      Forall (fun c => Path.isSlash c = false) (list_ascii_of_string name) ->
      getEnv "GITHUB_REPOSITORY" p = Some name ->
      fst (repositoryOf args p) = Some name)) /\
  (Js.truthyString (args_repo args) = None ->
   (getEnv "GITHUB_REPOSITORY" p = None ->
      snd (repositoryOf args p) = Some "pr-reviewer") /\
   (forall o r,
      Forall (fun c => Path.isSlash c = false) (list_ascii_of_string o) ->
      Forall (fun c => Path.isSlash c = false) (list_ascii_of_string r) ->
      getEnv "GITHUB_REPOSITORY" p = Some (o +:+ "/" +:+ r) ->
      snd (repositoryOf args p) = Some r) /\
   (forall name,
      Forall (fun c => Path.isSlash c = false) (list_ascii_of_string name) ->
      getEnv "GITHUB_REPOSITORY" p = Some name ->
      snd (repositoryOf args p) = None)).
Proof.
  unfold repositoryOf, Js.orElse. cbn [fst snd].
  split; [| split; [| split]].
  - intros o ->. reflexivity.
  - intros r ->. reflexivity.
  - intros ->. split; [| split].
    + intros ->. reflexivity.
    + intros o rest Hso ->. simpl.
      change (o +:+ "/" +:+ rest) with (o +:+ String "/" rest).
      now rewrite (split_segment o rest Hso).
    + intros name Hs ->. simpl. now rewrite (split_last name Hs).
  - intros ->. split; [| split].
    + intros ->. reflexivity.
    + intros o r Hso Hsr ->. simpl. now rewrite (split_two o r Hso Hsr).
    + intros name Hs ->. simpl. now rewrite (split_last name Hs).
Qed.

Lemma repositoryOf_precedence_witness :
  repositoryOf (setOwner (Some "octo") noArgs)
    (freshProcess "/home/dev" {["GITHUB_REPOSITORY" := "acme/widgets"]})
    = (Some "octo", Some "widgets").
Proof.
  pose proof (repositoryOf_precedence (setOwner (Some "octo") noArgs)
    (freshProcess "/home/dev" {["GITHUB_REPOSITORY" := "acme/widgets"]}))
    as (Howner & _ & _ & Hrepo).
  apply injective_projections.
  - exact (Howner "octo" eq_refl).
  - refine (proj1 (proj2 (Hrepo eq_refl)) "acme" "widgets" _ _ eq_refl);
      repeat constructor.
Defined.

End HarnessBehaviour.
